(** * PN532 EMV reader: [pn532_mifare_plus.cpp]

    A shallow embedding of the EMV read path of the PN532 component
    (track-data parsers, BER-TLV search, PDOL synthesis, APDU exchange and
    the read orchestrator), followed by the properties of the design
    description that were checked against it.

    Conventions.
    - [std::vector<uint8_t>] is [list byte]; a [uint8_t] or [uint16_t] local
      is a [Z] with the wrap-around written where the source can wrap.
    - [v[i]] outside the vector is undefined behaviour in C++; here it is the
      outcome [OutOfRange], which every caller propagates. An index that
      [size_t] arithmetic wraps below zero is negative here, and out of range
      either way.
    - Loops that the source does not bound take a fuel argument; running out
      of it is the outcome [OutOfFuel].
    - Logging ([ESP_LOGx]) and [yield()] have no effect on the results and are
      left out. *)

From Stdlib Require Import ZArith List Bool Lia.
From Stdlib Require String.
Import String.StringSyntax.
Delimit Scope string_scope with string.
From coqutil Require Import Byte.
Import ListNotations.
Local Open Scope Z_scope.

(** ** Outcomes *)

Inductive outcome (A : Type) : Type :=
| Ok (a : A)
| OutOfRange
| OutOfFuel.

Arguments Ok {A} a.
Arguments OutOfRange {A}.
Arguments OutOfFuel {A}.

Definition bind {A B : Type} (m : outcome A) (k : A -> outcome B) : outcome B :=
  match m with
  | Ok a => k a
  | OutOfRange => OutOfRange
  | OutOfFuel => OutOfFuel
  end.

Notation "x <- m ;; k" := (bind m (fun x => k))
  (at level 61, m at next level, right associativity).
Notation "' p <- m ;; k" := (bind m (fun x => match x with p => k end))
  (at level 61, p pattern, m at next level, right associativity).

(** ** Bytes and vectors *)

Definition u8 (b : byte) : Z := byte.unsigned b.
Definition to_u8 (z : Z) : byte := byte.of_Z z.

(** A vector literal written with its byte values. *)
Definition bytes (l : list Z) : list byte := map to_u8 l.

Definition size {A : Type} (v : list A) : Z := Z.of_nat (length v).

(** [v[i]] *)
Definition at_ (v : list byte) (i : Z) : outcome Z :=
  if i <? 0 then OutOfRange
  else match nth_error v (Z.to_nat i) with
       | Some b => Ok (u8 b)
       | None => OutOfRange
       end.

(** [{v.begin() + from, v.begin() + to}] for [0 <= from <= to <= v.size()] *)
Definition slice (v : list byte) (from to : Z) : list byte :=
  firstn (Z.to_nat (to - from)) (skipn (Z.to_nat from) v).

(** ** Track-data parsers *)

Fixpoint parse_nibbles_loop (fuel : nat) (data : list byte) (terminator : Z)
    (pos : Z) (result : list byte) : outcome (Z * list byte) :=
  match fuel with
  | O => OutOfFuel
  | S fuel' =>
      if pos <? size data then
        d <- at_ data pos ;;
        let hi_nibble := Z.shiftr d 4 in
        let lo_nibble := Z.land d 15 in
        if hi_nibble =? terminator then Ok (pos, result)
        else
          let result := result ++ [to_u8 hi_nibble] in
          if lo_nibble =? terminator then Ok (pos, result)
          else
            parse_nibbles_loop fuel' data terminator ((pos + 1) mod 256)
              (result ++ [to_u8 lo_nibble])
      else Ok (pos, result)
  end.

Definition parse_nibbles (fuel : nat) (data : list byte) (terminator : byte)
    : outcome (list byte) :=
  '(pos, result) <- parse_nibbles_loop fuel data (u8 terminator) 0 [] ;;
  if (pos >? 10) || (pos <? 3) then Ok [] else Ok result.

Definition parse_track2 (fuel : nat) (data : list byte) : outcome (list byte) :=
  parse_nibbles fuel data (to_u8 0x0D).

Definition parse_pan (fuel : nat) (data : list byte) : outcome (list byte) :=
  parse_nibbles fuel data (to_u8 0x0F).

Definition chr_B : Z := 66.
Definition chr_caret : Z := 94.
Definition chr_0 : Z := 48.
Definition chr_9 : Z := 57.

(** The scan of [parse_track1]: [inl] is the early [return {}] on a
    non-digit, [inr] the state at the end of the [while]. *)
Fixpoint parse_track1_loop (fuel : nat) (data : list byte) (pos : Z)
    (result : list byte) : outcome (unit + Z * list byte) :=
  match fuel with
  | O => OutOfFuel
  | S fuel' =>
      if pos <? size data then
        digit <- at_ data pos ;;
        if digit =? chr_caret then Ok (inr (pos, result))
        else if (digit <? chr_0) || (digit >? chr_9) then Ok (inl tt)
        else
          parse_track1_loop fuel' data ((pos + 1) mod 256)
            (result ++ [to_u8 (digit - chr_0)])
      else Ok (inr (pos, result))
  end.

Definition parse_track1 (fuel : nat) (data : list byte) : outcome (list byte) :=
  if size data =? 0 then Ok []
  else
    b <- at_ data 0 ;;
    if negb (b =? chr_B) then Ok []
    else
      r <- parse_track1_loop fuel data 1 [] ;;
      match r with
      | inl _ => Ok []
      | inr (pos, result) =>
          if (pos >=? size data) || (pos >? 20) then Ok [] else Ok result
      end.

(** ** BER-TLV search *)

Definition is_empty (v : list byte) : bool :=
  match v with [] => true | _ => false end.

(** The template (constructed) tags [findTag] descends into. *)
Definition is_template (tag : Z) : bool :=
  (tag =? 0x6F) || (tag =? 0xA5) || (tag =? 0xBF0C) || (tag =? 0x61)
  || (tag =? 0x77) || (tag =? 0x70).

Fixpoint findTag_rec (fuel : nat) (ber_data : list byte) (tagToFind : Z)
    : outcome (list byte) :=
  match fuel with
  | O => OutOfFuel
  | S fuel' =>
      if size ber_data <? 3 then Ok []
      else
        t <- at_ ber_data 0 ;;
        '(tag, headerLen) <-
          (if Z.land t 0x1F =? 0x1F
           then b <- at_ ber_data 1 ;; Ok (Z.shiftl t 8 + b, 2)
           else Ok (t, 1)) ;;
        l <- at_ ber_data headerLen ;;
        let headerLen := headerLen + 1 in
        '(len, headerLen) <-
          (if negb (Z.land l 0x80 =? 0)
           then b <- at_ ber_data headerLen ;; Ok (b, headerLen + 1)
           else Ok (l, headerLen)) ;;
        found <-
          (if size ber_data >=? len + headerLen then
             let tagValue := slice ber_data headerLen (headerLen + len) in
             if tag =? tagToFind then Ok (Some tagValue)
             else if is_template tag then
               tagValue <- findTag_rec fuel' tagValue tagToFind ;;
               if negb (is_empty tagValue) then Ok (Some tagValue) else Ok None
             else Ok None
           else Ok None) ;;
        match found with
        | Some tagValue => Ok tagValue
        | None =>
            if size ber_data >? len + headerLen then
              let remainingData :=
                slice ber_data (headerLen + len) (size ber_data) in
              tagValue <- findTag_rec fuel' remainingData tagToFind ;;
              if negb (is_empty tagValue) then Ok tagValue else Ok []
            else Ok []
        end
  end.

(** Every recursive call is on a strictly shorter vector, so the length of
    the vector bounds the depth (lemma [findTag_rec_fuel]). *)
Definition findTag (ber_data : list byte) (tagToFind : Z) : outcome (list byte) :=
  findTag_rec (S (length ber_data)) ber_data tagToFind.

(** ** PDOL synthesis *)

Definition pdol_value (tag len : Z) : list byte :=
  if tag =? 0x9F66 then bytes [0xF0; 0x20; 0x40; 0x00]
  else if (tag =? 0x9F02) || (tag =? 0x9F03) then
    bytes [0x00; 0x00; 0x00; 0x00; 0x10; 0x00]
  else if tag =? 0x9F1A then bytes [0x02; 0x76]
  else if tag =? 0x5F2A then bytes [0x09; 0x78]
  else if tag =? 0x9A then bytes [0x23; 0x11; 0x25]
  else if tag =? 0x9F37 then bytes [0xB5; 0x43; 0xFF; 0x89]
  else repeat (to_u8 0) (Z.to_nat len).

(** The [while] of [constructPdolData]; the second component of the result is
    the caller's [pdol] vector as the loop leaves it ([pdol] is passed by
    reference and erased from the front). *)
Fixpoint constructPdolData_loop (fuel : nat) (pdol result : list byte)
    : outcome (list byte * list byte) :=
  match fuel with
  | O => OutOfFuel
  | S fuel' =>
      if size pdol >? 1 then
        t <- at_ pdol 0 ;;
        '(tag, headerLen) <-
          (if Z.land t 0x1F =? 0x1F
           then b <- at_ pdol 1 ;; Ok (Z.shiftl t 8 + b, 2)
           else Ok (t, 1)) ;;
        len <- at_ pdol headerLen ;;
        let headerLen := headerLen + 1 in
        let tagValue := pdol_value tag len in
        constructPdolData_loop fuel' (skipn (Z.to_nat headerLen) pdol)
          (result ++ tagValue)
      else Ok (result, pdol)
  end.

Definition constructPdolData (pdol : list byte) : outcome (list byte * list byte) :=
  if size pdol <? 2 then Ok ([], pdol)
  else constructPdolData_loop (S (length pdol)) pdol [].

(** ** APDU exchange and the read orchestrator *)

(** What a function body does next: fall through, or [return b]. *)
Inductive flow : Type :=
| Continue
| Return (b : bool).

Section Reader.

(** The transport is the rest of the [PN532] class: [write_command_] and
    [read_response] act on the device state [T]. [read_response] fills the
    caller's [response] vector and reports success. *)
Variable T : Type.
Variable write_command_ : T -> list byte -> T * bool.
Variable read_response : T -> Z -> list byte -> T * bool * list byte.

(** Constants of [pn532.h] and [nfc.h]. *)
Variable PN532_COMMAND_INDATAEXCHANGE : Z.
Variable EMV_TAG_AID : Z.
Variable EMV_TAG_PDOL : Z.
Variable EMV_TAG_COMMAND : Z.
Variable EMV_TAG_TRACK2 : Z.
Variable EMV_TAG_TRACK1 : Z.
Variable EMV_TAG_PAN : Z.

(** The result is the device state, the returned [bool] and the caller's
    [response] vector after the call. *)
Definition sendAPDU (st : T) (apdu response : list byte)
    : outcome (T * bool * list byte) :=
  let command := [to_u8 PN532_COMMAND_INDATAEXCHANGE; to_u8 0x01] ++ apdu in
  let '(st, written) := write_command_ st command in
  if negb written then Ok (st, false, response)
  else
    let '(st, received, response) :=
      read_response st PN532_COMMAND_INDATAEXCHANGE response in
    if negb received then Ok (st, false, response)
    else
      first <- at_ response 0 ;;
      if negb (first =? 0x00) then Ok (st, false, response)
      else
        sw2 <- at_ response (size response - 1) ;;
        if negb (sw2 =? 0x00) then Ok (st, false, response)
        else
          sw1 <- at_ response (size response - 2) ;;
          if negb (sw1 =? 0x90) then Ok (st, false, response)
          else Ok (st, true, slice response 1 (size response - 2)).

(** The three nested attempts of the SELECT AID and GPO steps. *)
Definition sendAPDU_3 (st : T) (apdu response : list byte)
    : outcome (T * bool * list byte) :=
  '(st, ok, response) <- sendAPDU st apdu response ;;
  if ok then Ok (st, true, response)
  else
    '(st, ok, response) <- sendAPDU st apdu response ;;
    if ok then Ok (st, true, response)
    else
      '(st, ok, response) <- sendAPDU st apdu response ;;
      if ok then Ok (st, true, response) else Ok (st, false, response).

(** [while (start <= end)]: the records of one file. *)
Fixpoint read_records (fuel : nat) (st : T) (sfi start end_ : Z)
    (response : list byte) : outcome (T * list byte * flow) :=
  match fuel with
  | O => OutOfFuel
  | S fuel' =>
      if start <=? end_ then
        let apdu := bytes [0x00; 0xb2] ++ [to_u8 start; to_u8 sfi; to_u8 0x00] in
        '(st, ok, response) <- sendAPDU st apdu response ;;
        let next st response :=
          read_records fuel' st sfi ((start + 1) mod 256) end_ response in
        if ok then
          pan <- findTag response EMV_TAG_TRACK2 ;;
          if size pan >? 0 then
            _ <- parse_track2 (S (length pan)) pan ;;
            Ok (st, response, Return false)
          else
            pan <- findTag response EMV_TAG_TRACK1 ;;
            if size pan >? 0 then
              _ <- parse_track1 (S (length pan)) pan ;;
              Ok (st, response, Return false)
            else
              pan <- findTag response EMV_TAG_PAN ;;
              if size pan >? 0 then
                _ <- parse_pan (S (length pan)) pan ;;
                Ok (st, response, Return false)
              else next st response
        else next st response
      else Ok (st, response, Continue)
  end.

(** [while (pos < afl.size() - 4)]: the entries of the AFL. The caller has
    checked [afl.size() >= 4], so the unsigned difference does not wrap. *)
Fixpoint scan_afl (fuel : nat) (st : T) (afl : list byte) (pos : Z)
    (response : list byte) : outcome (T * list byte * flow) :=
  match fuel with
  | O => OutOfFuel
  | S fuel' =>
      if pos <? size afl - 4 then
        b <- at_ afl pos ;;
        let pos := (pos + 1) mod 256 in
        let sfi := Z.lor (Z.land b 0xF8) 0x04 in
        start <- at_ afl pos ;;
        let pos := (pos + 1) mod 256 in
        end_ <- at_ afl pos ;;
        let pos := (pos + 1) mod 256 in
        auth_rec <- at_ afl pos ;;
        let pos := (pos + 1) mod 256 in
        '(st, response, fl) <- read_records fuel' st sfi start end_ response ;;
        match fl with
        | Return b => Ok (st, response, Return b)
        | Continue => scan_afl fuel' st afl pos response
        end
      else Ok (st, response, Continue)
  end.

Definition select_ppse : list byte :=
  bytes [0x00; 0xa4; 0x04; 0x00;
         0x0e;
         0x32; 0x50; 0x41; 0x59; 0x2e; 0x53; 0x59; 0x53; 0x2e; 0x44; 0x44;
         0x46; 0x30; 0x31;
         0x00].

Definition select_aid (adf_name : list byte) : list byte :=
  bytes [0x00; 0xa4; 0x04; 0x00] ++ [to_u8 (size adf_name)] ++ adf_name
  ++ [to_u8 0x00].

Definition get_processing_options (pdol_data : list byte) : list byte :=
  bytes [0x80; 0xa8; 0x00; 0x00]
  ++ [to_u8 (size pdol_data + 2); to_u8 EMV_TAG_COMMAND; to_u8 (size pdol_data)]
  ++ pdol_data ++ [to_u8 0x00].

(** The result is the device state, the returned [bool] and the caller's
    [data] vector after the call. *)
Definition read_mifare_plus_bytes_ (fuel : nat) (st : T)
    (start_page num_bytes : Z) (data : list byte)
    : outcome (T * bool * list byte) :=
  let response := [] in
  '(st, ok, response) <- sendAPDU st select_ppse response ;;
  if negb ok then Ok (st, false, data)
  else
    adf_name <- findTag response EMV_TAG_AID ;;
    if is_empty adf_name then Ok (st, false, data)
    else
      '(st, ok, response) <- sendAPDU_3 st (select_aid adf_name) response ;;
      if negb ok then Ok (st, false, data)
      else
        pdol <- findTag response EMV_TAG_PDOL ;;
        '(pdol_data, pdol) <- constructPdolData pdol ;;
        '(st, ok, response) <-
          sendAPDU_3 st (get_processing_options pdol_data) response ;;
        if negb ok then Ok (st, false, data)
        else
          track2 <- findTag response EMV_TAG_TRACK2 ;;
          if size track2 >? 0 then
            _ <- parse_track2 (S (length track2)) track2 ;;
            Ok (st, false, data)
          else
            afl <- findTag response 0x94 ;;
            if (size afl <? 4) || negb (size afl mod 4 =? 0) then
              Ok (st, false, data)
            else
              '(st, response, fl) <- scan_afl fuel st afl 0 response ;;
              match fl with
              | Return b => Ok (st, b, data)
              | Continue => Ok (st, false, data)
              end.

End Reader.

(** A scripted transport: each exchange consumes one [reply]; every command
    handed to [write_command_] is recorded. *)
Record reply : Type := {
  write_ok : bool;
  read_ok : bool;
  answer : list byte
}.

Record scripted : Type := {
  script : list reply;
  sent : list (list byte)
}.

Definition scripted_write (st : scripted) (command : list byte) : scripted * bool :=
  match script st with
  | r :: rest =>
      ({| script := if write_ok r then script st else rest;
          sent := sent st ++ [command] |}, write_ok r)
  | [] => ({| script := []; sent := sent st ++ [command] |}, false)
  end.

Definition scripted_read (st : scripted) (code : Z) (response : list byte)
    : scripted * bool * list byte :=
  match script st with
  | r :: rest =>
      ({| script := rest; sent := sent st |}, read_ok r,
       if read_ok r then answer r else response)
  | [] => (st, false, response)
  end.

(** ** The flattening decoder and the storage its map points into

    [parseTags] fills a [std::map<uint16_t, uint8_t *>]: the map holds raw
    pointers, so the storage they point into is part of the model. Every
    vector the function creates is a block of [storage]; a block is released
    when the scope of its vector ends. *)

Definition ptr : Type := nat.

Record block : Type := {
  contents : list byte;
  live : bool
}.

Definition storage : Type := list block.

(** Construction of a local vector: a fresh live block. *)
Definition alloc (h : storage) (v : list byte) : storage * ptr :=
  (h ++ [{| contents := v; live := true |}], length h).

(** Destruction of a local vector at the end of its scope. *)
Fixpoint release (h : storage) (p : ptr) : storage :=
  match h, p with
  | [], _ => []
  | b :: h', O => {| contents := contents b; live := false |} :: h'
  | b :: h', S p' => b :: release h' p'
  end.

Definition is_live (h : storage) (p : ptr) : bool :=
  match nth_error h p with
  | Some b => live b
  | None => false
  end.

Definition tag_map : Type := list (Z * ptr).

Fixpoint map_find (m : tag_map) (tag : Z) : option ptr :=
  match m with
  | [] => None
  | (k, p) :: m' => if k =? tag then Some p else map_find m' tag
  end.

(** [std::map::insert]: an existing key keeps its value. *)
Definition map_insert (m : tag_map) (tag : Z) (p : ptr) : tag_map :=
  match map_find m tag with
  | Some _ => m
  | None => m ++ [(tag, p)]
  end.

Fixpoint parseTags (fuel : nat) (h : storage) (ber_data : list byte)
    (tagMap : tag_map) : outcome (storage * tag_map) :=
  match fuel with
  | O => OutOfFuel
  | S fuel' =>
      t <- at_ ber_data 0 ;;
      '(tag, headerLen) <-
        (if Z.land t 0x1F =? 0x1F
         then b <- at_ ber_data 1 ;; Ok (Z.shiftl t 8 + b, 2)
         else Ok (t, 1)) ;;
      len <- at_ ber_data headerLen ;;
      let headerLen := headerLen + 1 in
      '(h, tagMap) <-
        (if size ber_data >? len + headerLen then
           let remainingData :=
             slice ber_data (headerLen + len) (size ber_data) in
           let '(h, r) := alloc h remainingData in
           '(h, tagMap) <- parseTags fuel' h remainingData tagMap ;;
           Ok (release h r, tagMap)
         else Ok (h, tagMap)) ;;
      if size ber_data >=? len + headerLen then
        let tagValue := slice ber_data headerLen (headerLen + len) in
        let '(h, v) := alloc h tagValue in
        let tagMap := map_insert tagMap tag v in
        '(h, tagMap) <-
          (if (tag =? 0x6F) || (tag =? 0xA5) || (tag =? 0xBF0C) || (tag =? 0x61)
           then parseTags fuel' h tagValue tagMap
           else Ok (h, tagMap)) ;;
        Ok (release h v, tagMap)
      else Ok (h, tagMap)
  end.

(** ** Reference definitions

    The definitions of this part are not translated from the source: they
    restate, on plain lists, what the design description says a function
    computes, and are what the embedding is compared with. *)

(** The nibbles of a buffer, high before low. *)
Definition nibbles (data : list byte) : list Z :=
  flat_map (fun b => [Z.shiftr (u8 b) 4; Z.land (u8 b) 15]) data.

(** The elements in front of the first occurrence of [x]. *)
Fixpoint before (x : Z) (l : list Z) : list Z :=
  match l with
  | [] => []
  | y :: l' => if y =? x then [] else y :: before x l'
  end.

Definition occurs (x : Z) (l : list Z) : bool := existsb (Z.eqb x) l.

(** Bytes consumed when the scan stops: two nibbles per byte. *)
Definition bytes_consumed (digits : list Z) : Z := size digits / 2.

Definition in_pan_window (n : Z) : bool := (3 <=? n) && (n <=? 10).

(** parse-nibbles as the description states it: no terminator, no result. *)
Definition nibbles_described (data : list byte) (terminator : byte) : list byte :=
  let digits := before (u8 terminator) (nibbles data) in
  if occurs (u8 terminator) (nibbles data) && in_pan_window (bytes_consumed digits)
  then map to_u8 digits
  else [].

(** parse-nibbles as the code has it: the end of the buffer ends the scan
    like a terminator does. *)
Definition nibbles_scanned (data : list byte) (terminator : byte) : list byte :=
  let digits := before (u8 terminator) (nibbles data) in
  if in_pan_window (bytes_consumed digits) then map to_u8 digits else [].


Definition is_digit (c : Z) : bool := (chr_0 <=? c) && (c <=? chr_9).

(** The bytes between the format code and the first caret. *)
Definition track1_field (data : list byte) : list Z :=
  before chr_caret (map u8 (tl data)).

(** The rejection conditions of parse-track1, with the number of digit bytes
    allowed in front of the caret as a parameter. *)
Definition track1_rejected (limit : Z) (data : list byte) : bool :=
  match data with
  | [] => true
  | b :: rest =>
      negb (u8 b =? chr_B)
      || existsb (fun c => negb (is_digit c)) (track1_field data)
      || negb (occurs chr_caret (map u8 rest))
      || (size (track1_field data) >? limit)
  end.

Definition track1_digits (data : list byte) : list byte :=
  map (fun c => to_u8 (c - chr_0)) (track1_field data).

Definition track1_described (limit : Z) (data : list byte) : list byte :=
  if track1_rejected limit data then [] else track1_digits data.

Definition ascii (s : String.string) : list byte := String.list_byte_of_string s.

Arguments ascii s%_string.

(** *** The TLV structure of a buffer *)

(** decode-tag-header: the tag and the bytes behind it. *)
Definition decode_tag (buf : list byte) : option (Z * list byte) :=
  match buf with
  | [] => None
  | t :: rest =>
      if Z.land (u8 t) 0x1F =? 0x1F then
        match rest with
        | [] => None
        | b :: rest' => Some (Z.lor (Z.shiftl (u8 t) 8) (u8 b), rest')
        end
      else Some (u8 t, rest)
  end.

(** decode-length: the length and the bytes behind it; in long form the
    length is the byte that follows. *)
Definition decode_length (buf : list byte) : option (Z * list byte) :=
  match buf with
  | [] => None
  | l :: rest =>
      if Z.testbit (u8 l) 7 then
        match rest with
        | [] => None
        | n :: rest' => Some (u8 n, rest')
        end
      else Some (u8 l, rest)
  end.

(** The first node of a buffer: its tag, its value and the sibling buffer
    behind it. There is none in a buffer of fewer than 3 bytes, nor when the
    header is cut short or the declared length exceeds what is left. *)
Definition decode_node (buf : list byte) : option (Z * list byte * list byte) :=
  if size buf <? 3 then None
  else
    match decode_tag buf with
    | None => None
    | Some (tag, r) =>
        match decode_length r with
        | None => None
        | Some (len, r') =>
            if len <=? size r'
            then Some (tag, firstn (Z.to_nat len) r', skipn (Z.to_nat len) r')
            else None
        end
    end.

Definition constructed_tags : list Z := [0x6F; 0xA5; 0xBF0C; 0x61; 0x77; 0x70].

Definition is_constructed (tag : Z) : bool := existsb (Z.eqb tag) constructed_tags.

(** The nodes of a buffer in depth-first order: the first node, then the
    nodes of its value when it is constructed, then the nodes of the sibling
    buffer. *)
Fixpoint tlv_nodes_rec (fuel : nat) (buf : list byte) : list (Z * list byte) :=
  match fuel with
  | O => []
  | S fuel' =>
      match decode_node buf with
      | None => []
      | Some (tag, value, rest) =>
          (tag, value)
          :: (if is_constructed tag then tlv_nodes_rec fuel' value else [])
          ++ tlv_nodes_rec fuel' rest
      end
  end.

Definition tlv_nodes (buf : list byte) : list (Z * list byte) :=
  tlv_nodes_rec (length buf) buf.

(** The value of the first node that carries [target]; empty without one. *)
Definition first_value (target : Z) (nodes : list (Z * list byte)) : list byte :=
  match find (fun n => fst n =? target) nodes with
  | Some n => snd n
  | None => []
  end.

(** A one-byte or two-byte tag header and the tag it stands for. *)
Definition encodes_tag (hdr : list byte) (tag : Z) : Prop :=
  (exists t, hdr = [t] /\ Z.land (u8 t) 0x1F <> 0x1F /\ tag = u8 t)
  \/ (exists t b, hdr = [t; b] /\ Z.land (u8 t) 0x1F = 0x1F
                  /\ tag = Z.shiftl (u8 t) 8 + u8 b).

(** BER long form: the low seven bits of the first length byte announce how
    many length bytes follow. *)
Definition announced_length_bytes (l : byte) : Z := Z.land (u8 l) 0x7F.

(** A Track 2 node whose length is written with two extra length bytes
    (0x0100), followed by two bytes. *)
Definition two_length_bytes_sample : list byte :=
  bytes [0x57; 0x82; 0x01; 0x00; 0xAA; 0xBB].

(** A constructed node whose value holds an empty Track 2 node, followed by a
    Track 2 node with one byte. *)
Definition nested_empty_sample : list byte :=
  bytes [0x70; 0x03; 0x57; 0x00; 0x00; 0x57; 0x01; 0xAA].

(** A single PAN node, as a record may hold it. *)
Definition pan_node_sample : list byte := bytes [0x5A; 0x02; 0x12; 0x34].

(** A file control information template: 0x6F wrapping the AID (0x84) and
    0xA5 wrapping the SFI (0x88). *)
Definition fci_sample : list byte :=
  bytes [0x6F; 0x0E; 0x84; 0x07; 0xA0; 0x00; 0x00; 0x00; 0x03; 0x10; 0x10;
         0xA5; 0x03; 0x88; 0x01; 0x02].

(** *** Views of [findTag] used in the proofs *)

(** The header read at the start of [findTag]: tag, length, header length. *)
Definition tlv_header (ber_data : list byte) : outcome (Z * Z * Z) :=
  t <- at_ ber_data 0 ;;
  '(tag, headerLen) <-
    (if Z.land t 0x1F =? 0x1F
     then b <- at_ ber_data 1 ;; Ok (Z.shiftl t 8 + b, 2)
     else Ok (t, 1)) ;;
  l <- at_ ber_data headerLen ;;
  let headerLen := headerLen + 1 in
  '(len, headerLen) <-
    (if negb (Z.land l 0x80 =? 0)
     then b <- at_ ber_data headerLen ;; Ok (b, headerLen + 1)
     else Ok (l, headerLen)) ;;
  Ok (tag, len, headerLen).

(** One level of [findTag], the recursive calls being [rec]. *)
Definition findTag_body (rec : list byte -> outcome (list byte))
    (ber_data : list byte) (tagToFind : Z) : outcome (list byte) :=
  if size ber_data <? 3 then Ok []
  else
    '(tag, len, headerLen) <- tlv_header ber_data ;;
    found <-
      (if size ber_data >=? len + headerLen then
         let tagValue := slice ber_data headerLen (headerLen + len) in
         if tag =? tagToFind then Ok (Some tagValue)
         else if is_template tag then
           tagValue <- rec tagValue ;;
           if negb (is_empty tagValue) then Ok (Some tagValue) else Ok None
         else Ok None
       else Ok None) ;;
    match found with
    | Some tagValue => Ok tagValue
    | None =>
        if size ber_data >? len + headerLen then
          rec (slice ber_data (headerLen + len) (size ber_data))
        else Ok []
    end.

(** The Track 2 sample of the design description and its digits. *)
Definition track2_sample : list byte :=
  bytes [0x44; 0x00; 0x66; 0x49; 0x87; 0x36; 0x60; 0x29; 0xD2].

Definition pan_sample : list byte :=
  bytes [4; 4; 0; 0; 6; 6; 4; 9; 8; 7; 3; 6; 6; 0; 2; 9].


(** *** Storage across a call *)

(** [h'] is [h] after a call that has released every block it created:
    the blocks of [h] are as live as before, the blocks added are dead. *)
Definition scoped (h h' : storage) : Prop :=
  (length h <= length h')%nat
  /\ (forall q, (q < length h)%nat -> is_live h' q = is_live h q)
  /\ (forall q, (length h <= q)%nat -> is_live h' q = false).

(** The entries of [m'] are those of [m] or point at blocks from [n] on. *)
Definition entries_from (n : nat) (m m' : tag_map) : Prop :=
  forall tag p, map_find m' tag = Some p -> map_find m tag = Some p \/ (n <= p)%nat.

(** What [parseTags] does once the header is read, the recursive calls being
    [rec]. *)
Definition parseTags_node
    (rec : storage -> list byte -> tag_map -> outcome (storage * tag_map))
    (h : storage) (ber_data : list byte) (tagMap : tag_map) (tag len headerLen : Z)
    : outcome (storage * tag_map) :=
  '(h, tagMap) <-
    (if size ber_data >? len + headerLen then
       let remainingData := slice ber_data (headerLen + len) (size ber_data) in
       let '(h, r) := alloc h remainingData in
       '(h, tagMap) <- rec h remainingData tagMap ;;
       Ok (release h r, tagMap)
     else Ok (h, tagMap)) ;;
  if size ber_data >=? len + headerLen then
    let tagValue := slice ber_data headerLen (headerLen + len) in
    let '(h, v) := alloc h tagValue in
    let tagMap := map_insert tagMap tag v in
    '(h, tagMap) <-
      (if (tag =? 0x6F) || (tag =? 0xA5) || (tag =? 0xBF0C) || (tag =? 0x61)
       then rec h tagValue tagMap
       else Ok (h, tagMap)) ;;
    Ok (release h v, tagMap)
  else Ok (h, tagMap).

(** *** Scripted runs

    The values of [PN532_COMMAND_INDATAEXCHANGE] and of the [EMV_TAG_]
    constants are not in the file embedded here; the runs below take 0x40
    for the command and the tags of the EMV tag list (AID 0x4F, PDOL 0x9F38,
    command template 0x83, Track 2 0x57, Track 1 0x56, PAN 0x5A). *)

Definition emv_read (fuel : nat) (st : scripted) (data : list byte)
    : outcome (scripted * bool * list byte) :=
  read_mifare_plus_bytes_ scripted scripted_write scripted_read
    0x40 0x4F 0x9F38 0x83 0x57 0x56 0x5A fuel st 3 16 data.

(** A reply of the card: the transport prefixes its status byte 0x00, the
    card appends the status word 0x90 0x00. *)
Definition card_reply (payload : list Z) : reply :=
  {| write_ok := true; read_ok := true;
     answer := bytes ([0x00] ++ payload ++ [0x90; 0x00]) |}.

(** SELECT PPSE answered with a directory entry for AID A0 00 00 00 03 10 10. *)
Definition ppse_reply : reply :=
  card_reply [0x6F; 0x10; 0xA5; 0x0E; 0xBF; 0x0C; 0x0B; 0x61; 0x09;
              0x4F; 0x07; 0xA0; 0x00; 0x00; 0x00; 0x03; 0x10; 0x10].

(** SELECT AID answered with a PDOL that asks for the terminal country code. *)
Definition aid_reply : reply :=
  card_reply [0x6F; 0x11; 0x84; 0x07; 0xA0; 0x00; 0x00; 0x00; 0x03; 0x10; 0x10;
              0xA5; 0x06; 0x9F; 0x38; 0x03; 0x9F; 0x1A; 0x02].

(** GPO answered with Track 2 Equivalent Data (the sample) and an AFL. *)
Definition gpo_track2_reply : reply :=
  card_reply [0x77; 0x11;
              0x57; 0x09; 0x44; 0x00; 0x66; 0x49; 0x87; 0x36; 0x60; 0x29; 0xD2;
              0x94; 0x04; 0x08; 0x01; 0x01; 0x00].

(** GPO answered with an AFL of two entries: file 1, record 1 and file 2,
    records 1 to 2. *)
Definition gpo_afl_reply : reply :=
  card_reply [0x77; 0x0E; 0x82; 0x02; 0x00; 0x00;
              0x94; 0x08; 0x08; 0x01; 0x01; 0x00; 0x10; 0x01; 0x02; 0x00].

(** A record without card number, and a record with the PAN field. *)
Definition plain_record_reply : reply :=
  card_reply [0x70; 0x03; 0x8F; 0x01; 0x05].

Definition pan_record_reply : reply :=
  card_reply [0x70; 0x0A; 0x5A; 0x08; 0x44; 0x00; 0x66; 0x49; 0x87; 0x36; 0x60; 0x29].

Definition transport_frame (apdu : list Z) : list byte := bytes ([0x40; 0x01] ++ apdu).

Definition select_ppse_frame : list byte :=
  transport_frame [0x00; 0xA4; 0x04; 0x00; 0x0E;
                   0x32; 0x50; 0x41; 0x59; 0x2E; 0x53; 0x59; 0x53; 0x2E; 0x44;
                   0x44; 0x46; 0x30; 0x31; 0x00].

Definition select_aid_frame : list byte :=
  transport_frame [0x00; 0xA4; 0x04; 0x00; 0x07;
                   0xA0; 0x00; 0x00; 0x00; 0x03; 0x10; 0x10; 0x00].

Definition gpo_frame : list byte :=
  transport_frame [0x80; 0xA8; 0x00; 0x00; 0x04; 0x83; 0x02; 0x02; 0x76; 0x00].

Definition read_record_frame (record sfi : Z) : list byte :=
  transport_frame [0x00; 0xB2; record; sfi; 0x00].

(** *** Further views and reference definitions *)

(** The header [parseTags] and [constructPdolData] read: a tag of one or two
    bytes and a single length byte (tag, length, header length). *)
Definition short_header (buf : list byte) : outcome (Z * Z * Z) :=
  t <- at_ buf 0 ;;
  '(tag, headerLen) <-
    (if Z.land t 0x1F =? 0x1F
     then b <- at_ buf 1 ;; Ok (Z.shiftl t 8 + b, 2)
     else Ok (t, 1)) ;;
  len <- at_ buf headerLen ;;
  Ok (tag, len, headerLen + 1).

(** A data object list: for each entry the bytes of its tag, the tag they
    stand for, and the length byte. *)
Definition dol_entry : Type := (list byte * Z * byte)%type.

Definition dol_entry_ok (e : dol_entry) : Prop :=
  let '(hdr, tag, l) := e in encodes_tag hdr tag.

Definition dol_bytes (entries : list dol_entry) : list byte :=
  flat_map (fun e : dol_entry => let '(hdr, tag, l) := e in hdr ++ [l]) entries.

Definition dol_values (entries : list dol_entry) : list byte :=
  flat_map (fun e : dol_entry => let '(hdr, tag, l) := e in pdol_value tag (u8 l))
    entries.

(** The template tags [parseTags] descends into. *)
Definition parse_template (tag : Z) : bool :=
  (tag =? 0x6F) || (tag =? 0xA5) || (tag =? 0xBF0C) || (tag =? 0x61).

(** Every entry of [m] is an entry of [m']. *)
Definition keeps (m m' : tag_map) : Prop :=
  forall tag p, map_find m tag = Some p -> map_find m' tag = Some p.

(** *** The frames on the transport *)

(** What [sendAPDU] writes for an APDU. *)
Definition exchange_frame (command : Z) (apdu : list byte) : list byte :=
  to_u8 command :: to_u8 0x01 :: apdu.

(** The READ RECORD command of the scan. *)
Definition read_record_apdu (record sfi : Z) : list byte :=
  bytes [0x00; 0xb2] ++ [to_u8 record; to_u8 sfi; to_u8 0x00].

Definition is_read_record (command : Z) (frame : list byte) : Prop :=
  exists record sfi, frame = exchange_frame command (read_record_apdu record sfi).

(** The frames for the records [start], [start + 1], ... ([count] of them)
    of one file. *)
Definition record_frames (command sfi start : Z) (count : nat) : list (list byte) :=
  map (fun i => exchange_frame command (read_record_apdu (start + Z.of_nat i) sfi))
      (seq 0 count).

(** ** The tag handed to the rest of the firmware *)

(** [nfc::NfcTag], as far as this file uses it: the constructor with a UID
    and a type, and the one that takes the data read as well. *)
Inductive NfcTag : Type :=
| NfcTag_uid_type (uid : list byte) (tag_type : String.string)
| NfcTag_uid_type_data (uid : list byte) (tag_type : String.string) (data : list byte).

Section TagReader.

Variable T : Type.
Variable write_command_ : T -> list byte -> T * bool.
Variable read_response : T -> Z -> list byte -> T * bool * list byte.
Variable PN532_COMMAND_INDATAEXCHANGE : Z.
Variable EMV_TAG_AID : Z.
Variable EMV_TAG_PDOL : Z.
Variable EMV_TAG_COMMAND : Z.
Variable EMV_TAG_TRACK2 : Z.
Variable EMV_TAG_TRACK1 : Z.
Variable EMV_TAG_PAN : Z.

(** Constants of [nfc.h]. *)
Variable NFC_FORUM_TYPE_2 : String.string.
Variable MIFARE_ULTRALIGHT_PAGE_SIZE : Z.
Variable MIFARE_ULTRALIGHT_READ_SIZE : Z.

Definition read_mifare_plus_tag_ (fuel : nat) (st : T) (uid : list byte)
    : outcome (T * NfcTag) :=
  let data := [] in
  '(st, ok, data) <-
    read_mifare_plus_bytes_ T write_command_ read_response
      PN532_COMMAND_INDATAEXCHANGE EMV_TAG_AID EMV_TAG_PDOL EMV_TAG_COMMAND
      EMV_TAG_TRACK2 EMV_TAG_TRACK1 EMV_TAG_PAN fuel st 3
      ((MIFARE_ULTRALIGHT_PAGE_SIZE * MIFARE_ULTRALIGHT_READ_SIZE) mod 65536) data ;;
  if negb ok then Ok (st, NfcTag_uid_type uid NFC_FORUM_TYPE_2)
  else Ok (st, NfcTag_uid_type_data uid NFC_FORUM_TYPE_2 data).

End TagReader.

(** A READ RECORD frame for the file of an AFL entry in front of the last
    one: the entry starts at a multiple of 4 with at least 4 more bytes
    behind it, and the file identifier is its first byte with the low three
    bits replaced by 0b100. *)
Definition reads_inner_entry (command : Z) (afl frame : list byte) : Prop :=
  exists j b record,
    0 <= j /\ 4 * j + 4 < size afl /\ at_ afl (4 * j) = Ok b
    /\ frame = exchange_frame command
                 (read_record_apdu record (Z.lor (Z.land b 0xF8) 0x04)).

(** The length bytes of a node as [findTag] reads them: one byte below 0x80,
    or a byte with the high bit set followed by the length. *)
Definition encodes_length (lb : list byte) (len : Z) : Prop :=
  (exists l, lb = [l] /\ Z.testbit (u8 l) 7 = false /\ len = u8 l)
  \/ (exists l n, lb = [l; n] /\ Z.testbit (u8 l) 7 = true /\ len = u8 n).

(** * Properties *)

(** ** Bytes, indexing and slices *)

Lemma u8_range (b : byte) : 0 <= u8 b < 256.
Proof. exact (byte.unsigned_range b). Qed.

Lemma to_u8_u8 (b : byte) : to_u8 (u8 b) = b.
Proof. exact (byte.of_Z_unsigned b). Qed.

Lemma u8_to_u8 (z : Z) : 0 <= z < 256 -> u8 (to_u8 z) = z.
Proof.
  intros Hz. unfold u8, to_u8. rewrite byte.unsigned_of_Z.
  unfold byte.wrap. apply Z.mod_small. exact Hz.
Qed.

Lemma size_nil {A : Type} : size (@nil A) = 0.
Proof. reflexivity. Qed.

Lemma size_cons {A : Type} (x : A) (l : list A) : size (x :: l) = size l + 1.
Proof. unfold size. simpl length. lia. Qed.

Lemma size_app {A : Type} (l1 l2 : list A) : size (l1 ++ l2) = size l1 + size l2.
Proof. unfold size. rewrite length_app. lia. Qed.

Lemma size_nonneg {A : Type} (l : list A) : 0 <= size l.
Proof. unfold size. lia. Qed.

Lemma at_app (done todo : list byte) (b : byte) :
  at_ (done ++ b :: todo) (size done) = Ok (u8 b).
Proof.
  unfold at_, size.
  destruct (Z.ltb_spec (Z.of_nat (length done)) 0) as [H | H]; [lia |].
  rewrite Nat2Z.id, nth_error_app2 by lia.
  rewrite Nat.sub_diag. reflexivity.
Qed.

Lemma at_in_range (v : list byte) (i : Z) :
  0 <= i < size v -> exists b, nth_error v (Z.to_nat i) = Some b /\ at_ v i = Ok (u8 b).
Proof.
  intros Hi. unfold at_, size in *.
  destruct (Z.ltb_spec i 0) as [H | H]; [lia |].
  destruct (nth_error v (Z.to_nat i)) as [b |] eqn:E.
  - exists b. split; reflexivity.
  - apply nth_error_None in E. lia.
Qed.

(** ** parse_nibbles *)

(** Loop invariant: with [done] consumed and no wrap of the 8-bit position,
    the loop stops in front of the first terminator nibble of [todo], or at
    the end of the buffer. *)
Lemma parse_nibbles_loop_scan (t : Z) (todo : list byte) :
  forall (fuel : nat) (done result : list byte),
    (length todo < fuel)%nat ->
    size (done ++ todo) <= 255 ->
    parse_nibbles_loop fuel (done ++ todo) t (size done) result
    = Ok (size done + bytes_consumed (before t (nibbles todo)),
          result ++ map to_u8 (before t (nibbles todo))).
Proof.
  induction todo as [| b todo IH]; intros fuel done result Hfuel Hlen.
  - destruct fuel as [| fuel]; [simpl in Hfuel; lia |].
    simpl. rewrite app_nil_r, Z.ltb_irrefl.
    unfold bytes_consumed. simpl. rewrite app_nil_r, Z.add_0_r. reflexivity.
  - destruct fuel as [| fuel]; [simpl in Hfuel; lia |].
    cbn [parse_nibbles_loop].
    rewrite size_app, size_cons in *.
    pose proof (size_nonneg todo) as Htodo.
    pose proof (size_nonneg done) as Hdone.
    destruct (Z.ltb_spec (size done) (size done + (size todo + 1))) as [_ | H]; [| lia].
    
    replace (size done + (size todo + 1)) with (size (done ++ b :: todo))
      by (rewrite size_app, size_cons; lia).
    rewrite at_app. cbn [bind nibbles flat_map app before].
    destruct (Z.eqb_spec (Z.shiftr (u8 b) 4) t) as [Hhi | Hhi].
    + unfold bytes_consumed. simpl. rewrite app_nil_r, Z.add_0_r. reflexivity.
    + destruct (Z.eqb_spec (Z.land (u8 b) 15) t) as [Hlo | Hlo].
      * unfold bytes_consumed. simpl. rewrite Z.add_0_r. reflexivity.
      * rewrite Z.mod_small by lia.
        replace (done ++ b :: todo) with ((done ++ [b]) ++ todo)
          by (rewrite <- app_assoc; reflexivity).
        replace (size done + 1) with (size (done ++ [b]))
          by (rewrite size_app, size_cons, size_nil; lia).
        rewrite IH.
        -- f_equal. f_equal.
           ++ rewrite size_app, size_cons, size_nil.
              unfold bytes_consumed. rewrite !size_cons.
              replace (size (before t (flat_map
                         (fun b0 => [Z.shiftr (u8 b0) 4; Z.land (u8 b0) 15]) todo)) + 1 + 1)
                with (1 * 2 + size (before t (nibbles todo))) by (unfold nibbles; lia).
              rewrite Z.div_add_l by lia. lia.
           ++ cbn [map]. rewrite <- !app_assoc. reflexivity.
        -- simpl in Hfuel. lia.
        -- rewrite size_app, size_app, size_cons, size_nil. lia.
Qed.

Lemma before_no_occurrence (x : Z) (l : list Z) :
  occurs x l = false -> before x l = l.
Proof.
  induction l as [| y l IH]; simpl; intros H; [reflexivity |].
  apply orb_false_elim in H. destruct H as [Hy Hl].
  rewrite Z.eqb_sym, Hy. f_equal. exact (IH Hl).
Qed.

Lemma size_nibbles (data : list byte) : size (nibbles data) = 2 * size data.
Proof.
  induction data as [| b data IH]; [reflexivity |].
  unfold nibbles in *. cbn [flat_map app]. rewrite !size_cons, IH. lia.
Qed.

(** Beyond 255 bytes the 8-bit position comes back to 0: without a terminator
    nibble in the first 256 bytes the loop never ends. *)
Lemma parse_nibbles_loop_cycles (data : list byte) (t : Z) :
  256 <= size data ->
  (forall i d, 0 <= i < 256 -> at_ data i = Ok d ->
               Z.shiftr d 4 <> t /\ Z.land d 15 <> t) ->
  forall (fuel : nat) (pos : Z) (result : list byte),
    0 <= pos < 256 ->
    parse_nibbles_loop fuel data t pos result = OutOfFuel.
Proof.
  intros Hsize Hfree. induction fuel as [| fuel IH]; intros pos result Hpos;
    [reflexivity |].
  cbn [parse_nibbles_loop].
  destruct (Z.ltb_spec pos (size data)) as [_ | Hge]; [| lia].
  destruct (at_in_range data pos) as [b [_ Hb]]; [lia |].
  rewrite Hb. cbn [bind].
  destruct (Hfree pos (u8 b) Hpos Hb) as [Hhi Hlo].
  destruct (Z.eqb_spec (Z.shiftr (u8 b) 4) t); [contradiction |].
  destruct (Z.eqb_spec (Z.land (u8 b) 15) t); [contradiction |].
  apply IH. apply Z.mod_pos_bound. lia.
Qed.

(** C3, as stated, fails: three bytes without a terminator nibble are not
    rejected, their six nibbles are returned. *)
Lemma parse_nibbles_no_terminator_not_rejected :
  ~ (forall (fuel : nat) (data : list byte) (terminator : byte),
        (length data < fuel)%nat ->
        parse_nibbles fuel data terminator = Ok (nibbles_described data terminator)).
Proof.
  intros H.
  specialize (H 4%nat (bytes [0x12; 0x34; 0x56]) (to_u8 0x0D)).
  assert (parse_nibbles 4 (bytes [0x12; 0x34; 0x56]) (to_u8 0x0D)
          = Ok (bytes [1; 2; 3; 4; 5; 6])) as E by (vm_compute; reflexivity).
  rewrite E in H.
  assert (nibbles_described (bytes [0x12; 0x34; 0x56]) (to_u8 0x0D) = [])
    as D by (vm_compute; reflexivity).
  rewrite D in H.
  assert (Ok (bytes [1; 2; 3; 4; 5; 6]) = Ok []) as F by (apply H; simpl; lia).
  vm_compute in F. discriminate F.
Qed.

(** C3 (amended): on a buffer of at most 255 bytes, [parse_nibbles] returns
    the high-then-low nibbles in front of the first terminator nibble, or all
    nibbles when there is none, provided the number of bytes consumed lies in
    [3, 10], and the empty sequence otherwise; with a terminator present this
    is what the description asks for; the Track 2 sample yields its sixteen
    digits and the scan stops at byte offset 8. *)
Theorem parse_nibbles_scanned (fuel : nat) (data : list byte) (terminator : byte) :
  (length data < fuel)%nat ->
  size data <= 255 ->
  parse_nibbles fuel data terminator = Ok (nibbles_scanned data terminator)
  /\ (occurs (u8 terminator) (nibbles data) = true ->
      nibbles_scanned data terminator = nibbles_described data terminator)
  /\ (occurs (u8 terminator) (nibbles data) = false ->
      nibbles_scanned data terminator
      = if in_pan_window (size data) then map to_u8 (nibbles data) else [])
  /\ parse_track2 10 track2_sample = Ok pan_sample
  /\ parse_nibbles_loop 10 track2_sample 0x0D 0 [] = Ok (8, pan_sample).
Proof.
  intros Hfuel Hlen. split; [| split; [| split; [| split]]].
  - unfold parse_nibbles.
    pose proof (parse_nibbles_loop_scan (u8 terminator) data fuel [] [] Hfuel Hlen) as L.
    cbn [app] in L. rewrite size_nil in L. rewrite L. cbn [bind].
    unfold nibbles_scanned, in_pan_window. rewrite Z.add_0_l.
    set (n := bytes_consumed _).
    destruct (Z.gtb_spec n 10), (Z.ltb_spec n 3), (Z.leb_spec 3 n), (Z.leb_spec n 10);
      cbn [orb andb]; try reflexivity; lia.
  - intros Hocc. unfold nibbles_scanned, nibbles_described. rewrite Hocc. reflexivity.
  - intros Hocc. unfold nibbles_scanned.
    rewrite (before_no_occurrence _ _ Hocc).
    unfold bytes_consumed. rewrite size_nibbles.
    replace (2 * size data) with (size data * 2) by lia.
    rewrite Z.div_mul by lia. reflexivity.
  - vm_compute. reflexivity.
  - vm_compute. reflexivity.
Qed.

Lemma parse_nibbles_scanned_witness :
  parse_nibbles 10 track2_sample (to_u8 0x0D)
  = Ok (nibbles_scanned track2_sample (to_u8 0x0D)).
Proof.
  apply (parse_nibbles_scanned 10 track2_sample (to_u8 0x0D)).
  - vm_compute. lia.
  - vm_compute. discriminate.
Defined.

(** ** parse_track1 *)

Lemma size_before_occurs (x : Z) (l : list Z) :
  occurs x l = negb (size (before x l) >=? size l).
Proof.
  induction l as [| y l IH]; simpl; [reflexivity |].
  rewrite (Z.eqb_sym x y).
  destruct (y =? x); cbn [orb].
  - rewrite size_nil, size_cons. pose proof (size_nonneg l).
    destruct (Z.geb_spec 0 (size l + 1)); [lia | reflexivity].
  - rewrite IH, !size_cons.
    destruct (Z.geb_spec (size (before x l)) (size l)),
             (Z.geb_spec (size (before x l) + 1) (size l + 1)); try reflexivity; lia.
Qed.

(** Loop invariant. The position is an 8-bit counter: a digit at index 255
    sends it back to 0, where the format code ['B'] is met as a non-digit. *)
Lemma parse_track1_loop_scan (todo : list byte) :
  forall (fuel : nat) (done result : list byte),
    (length todo < fuel)%nat ->
    1 <= size done <= 255 ->
    at_ (done ++ todo) 0 = Ok chr_B ->
    parse_track1_loop fuel (done ++ todo) (size done) result
    = Ok (let field := before chr_caret (map u8 todo) in
          if existsb (fun c => negb (is_digit c)) field then inl tt
          else if size done + size field >? 255 then inl tt
          else inr (size done + size field,
                    result ++ map (fun c => to_u8 (c - chr_0)) field)).
Proof.
  induction todo as [| b todo IH]; intros fuel done result Hfuel Hdone HB.
  - destruct fuel as [| fuel]; [simpl in Hfuel; lia |].
    cbn [parse_track1_loop]. rewrite app_nil_r, Z.ltb_irrefl.
    cbn [map before existsb]. rewrite size_nil, Z.add_0_r, app_nil_r.
    destruct (Z.gtb_spec (size done) 255); [lia | reflexivity].
  - destruct fuel as [| fuel]; [simpl in Hfuel; lia |].
    cbn [parse_track1_loop].
    pose proof (size_nonneg todo) as Htodo.
    destruct (Z.ltb_spec (size done) (size (done ++ b :: todo))) as [_ | H];
      [| rewrite size_app, size_cons in H; lia].
    rewrite at_app. cbn [bind map before].
    destruct (Z.eqb_spec (u8 b) chr_caret) as [Hc | Hc].
    + cbn [existsb]. rewrite size_nil, Z.add_0_r, app_nil_r.
      destruct (Z.gtb_spec (size done) 255); [lia | reflexivity].
    + cbn [existsb]. unfold is_digit at 1.
      destruct (Z.ltb_spec (u8 b) chr_0) as [Hlo | Hlo];
        destruct (Z.gtb_spec (u8 b) chr_9) as [Hhi | Hhi];
        destruct (Z.leb_spec chr_0 (u8 b)); destruct (Z.leb_spec (u8 b) chr_9);
        cbn [orb andb negb]; try reflexivity; try lia.
      rewrite size_cons.
      pose proof (size_nonneg (before chr_caret (map u8 todo))) as Hfield.
      destruct (Z.eq_dec (size done) 255) as [Hwrap | Hnowrap].
      * (* the digit at index 255 *)
        rewrite Hwrap. change ((255 + 1) mod 256) with 0.
        destruct fuel as [| fuel]; [simpl in Hfuel; lia |].
        cbn [parse_track1_loop].
        destruct (Z.ltb_spec 0 (size (done ++ b :: todo))) as [_ | Hsz];
          [| rewrite size_app, size_cons in Hsz; lia].
        rewrite HB. cbn [bind]. change (chr_B =? chr_caret) with false.
        change ((chr_B <? chr_0) || (chr_B >? chr_9)) with true. cbn iota.
        destruct (existsb _ _); [reflexivity |].
        destruct (Z.gtb_spec (255 + (size (before chr_caret (map u8 todo)) + 1)) 255);
          [reflexivity | lia].
      * rewrite Z.mod_small by lia.
        replace (done ++ b :: todo) with ((done ++ [b]) ++ todo) in *
          by (rewrite <- app_assoc; reflexivity).
        replace (size done + 1) with (size (done ++ [b]))
          by (rewrite size_app, size_cons, size_nil; lia).
        rewrite IH; [| simpl in Hfuel; lia
                     | rewrite size_app, size_cons, size_nil; lia | exact HB].
        cbv zeta. rewrite size_app, size_cons, size_nil.
        destruct (existsb _ _); [reflexivity |].
        replace (size done + (0 + 1) + size (before chr_caret (map u8 todo)))
          with (size done + (size (before chr_caret (map u8 todo)) + 1)) by lia.
        destruct (_ >? 255); [reflexivity |].
        cbn [map]. rewrite <- app_assoc. reflexivity.
Qed.

Lemma size_map {A B : Type} (f : A -> B) (l : list A) : size (map f l) = size l.
Proof. unfold size. rewrite length_map. reflexivity. Qed.

Lemma parse_track1_described (fuel : nat) (data : list byte) :
  (length data < fuel)%nat ->
  parse_track1 fuel data = Ok (track1_described 19 data).
Proof.
  intros Hfuel. destruct data as [| b rest]; [reflexivity |].
  unfold parse_track1, track1_described, track1_rejected, track1_digits, track1_field.
  cbn [tl].
  pose proof (size_nonneg rest) as Hrest.
  destruct (Z.eqb_spec (size (b :: rest)) 0) as [H0 | _];
    [rewrite size_cons in H0; lia |].
  change (at_ (b :: rest) 0) with (Ok (u8 b)). cbn [bind].
  destruct (u8 b =? chr_B) eqn:HB; cbn [negb orb]; [| reflexivity].
  change (parse_track1_loop fuel (b :: rest) 1 [])
    with (parse_track1_loop fuel ([b] ++ rest) (size [b]) []).
  rewrite parse_track1_loop_scan;
    [| simpl in Hfuel; lia | rewrite size_cons, size_nil; lia
     | apply Z.eqb_eq in HB; rewrite <- HB; reflexivity].
  cbv zeta. cbn [bind].
  rewrite size_before_occurs, size_map, negb_involutive.
  set (field := before chr_caret (map u8 rest)).
  pose proof (size_nonneg field) as Hfield.
  rewrite !size_cons, size_nil.
  destruct (existsb _ field); cbn [orb]; [reflexivity |].
  destruct (Z.gtb_spec (0 + 1 + size field) 255) as [Hw | Hw].
  - destruct (Z.gtb_spec (size field) 19); [| lia].
    rewrite orb_true_r. reflexivity.
  - destruct (Z.geb_spec (0 + 1 + size field) (size rest + 1)),
             (Z.geb_spec (size field) (size rest)),
             (Z.gtb_spec (0 + 1 + size field) 20),
             (Z.gtb_spec (size field) 19); cbn [orb]; try reflexivity; lia.
Qed.

(** C6, as stated, fails: twenty digits in front of the caret are rejected,
    although no more than twenty digit bytes were consumed. *)
Lemma parse_track1_twenty_digits_rejected :
  ~ (forall (fuel : nat) (data : list byte),
        (length data < fuel)%nat ->
        parse_track1 fuel data = Ok (track1_described 20 data)).
Proof.
  intros H.
  specialize (H 30%nat (ascii "B44006649873660291234^")).
  assert (parse_track1 30 (ascii "B44006649873660291234^") = Ok [])
    as E by (vm_compute; reflexivity).
  rewrite E in H.
  assert (is_empty (track1_described 20 (ascii "B44006649873660291234^")) = false)
    as D by (vm_compute; reflexivity).
  assert (Ok [] = Ok (track1_described 20 (ascii "B44006649873660291234^")))
    as F by (apply H; vm_compute; lia).
  injection F as F. rewrite <- F in D. discriminate D.
Qed.

(** C6 (amended): [parse_track1] returns the digit values of the ASCII digits
    between the leading ['B'] and the first ['^']; it returns the empty
    sequence exactly when the buffer is empty, the first byte is not ['B'], a
    byte in front of the caret is not a digit, there is no caret, more than 19
    digit bytes stand in front of the caret, or no digit stands between ['B']
    and the caret; the Track 1 sample yields its sixteen digits. *)
Theorem parse_track1_scanned (fuel : nat) (data : list byte) :
  (length data < fuel)%nat ->
  parse_track1 fuel data = Ok (track1_described 19 data)
  /\ (parse_track1 fuel data = Ok []
      <-> track1_rejected 19 data = true \/ track1_field data = [])
  /\ parse_track1 20 (ascii "B4400664987366029^") = Ok pan_sample.
Proof.
  intros Hfuel. pose proof (parse_track1_described fuel data Hfuel) as E.
  split; [exact E | split; [| vm_compute; reflexivity]].
  rewrite E. unfold track1_described, track1_digits.
  destruct (track1_rejected 19 data); split.
  - intros _. left. reflexivity.
  - reflexivity.
  - intros F. right. injection F as F.
    destruct (track1_field data); [reflexivity | discriminate F].
  - intros [F | F]; [discriminate F | rewrite F; reflexivity].
Qed.

Lemma parse_track1_scanned_witness :
  parse_track1 20 (ascii "B4400664987366029^")
  = Ok (track1_described 19 (ascii "B4400664987366029^")).
Proof.
  apply (parse_track1_scanned 20 (ascii "B4400664987366029^")).
  vm_compute. lia.
Defined.

(** ** findTag *)

Lemma at_ok (v : list byte) (i z : Z) :
  at_ v i = Ok z -> 0 <= i < size v /\ 0 <= z < 256.
Proof.
  unfold at_, size. destruct (Z.ltb_spec i 0) as [Hi | Hi]; [discriminate |].
  destruct (nth_error v (Z.to_nat i)) as [b |] eqn:E; [| discriminate].
  intros H. injection H as <-.
  assert (nth_error v (Z.to_nat i) <> None) as N by congruence.
  apply nth_error_Some in N. split; [lia | apply u8_range].
Qed.

Lemma slice_length (v : list byte) (from to : Z) :
  (length (slice v from to) <= Z.to_nat (to - from))%nat.
Proof. unfold slice. rewrite length_firstn. lia. Qed.

Lemma slice_to_end (v : list byte) (from : Z) :
  slice v from (size v) = skipn (Z.to_nat from) v.
Proof.
  unfold slice, size. apply firstn_all2. rewrite length_skipn. lia.
Qed.

Lemma at_terminates (v : list byte) (i : Z) : at_ v i <> OutOfFuel.
Proof.
  unfold at_. destruct (i <? 0); [discriminate |].
  destruct (nth_error v (Z.to_nat i)); discriminate.
Qed.

(** Case analysis on the next read of a monadic computation. *)
Ltac next_read :=
  match goal with
  | |- context [bind (at_ ?v ?i) _] =>
      let E := fresh "E" in
      let z := fresh "z" in
      destruct (at_ v i) as [z | |] eqn:E; cbn [bind];
      [apply at_ok in E | | exfalso; exact (at_terminates v i E)]
  end.

Lemma tlv_header_bounds (ber_data : list byte) (tag len headerLen : Z) :
  tlv_header ber_data = Ok (tag, len, headerLen) ->
  2 <= headerLen <= 4 /\ 0 <= len <= 255 /\ headerLen <= size ber_data.
Proof.
  unfold tlv_header.
  next_read; try discriminate.
  destruct (Z.land z 31 =? 31); cbn [bind].
  - next_read; try discriminate. next_read; try discriminate.
    destruct (Z.land z1 128 =? 0); cbn [bind negb].
    + intros H; injection H as <- <- <-. lia.
    + next_read; try discriminate. intros H; injection H as <- <- <-. lia.
  - next_read; try discriminate.
    destruct (Z.land z0 128 =? 0); cbn [bind negb].
    + intros H; injection H as <- <- <-. lia.
    + next_read; try discriminate. intros H; injection H as <- <- <-. lia.
Qed.

(** Exhaustive case analysis on the reads and tests of a computation. *)
Ltac split_outcome :=
  repeat (cbn [bind negb is_empty];
          try reflexivity;
          match goal with
          | |- context [bind (at_ ?v ?i) _] => destruct (at_ v i) as [? | |]
          | |- context [bind (findTag_rec ?f ?v ?t) _] =>
              destruct (findTag_rec f v t) as [[| ? ?] | |]
          | |- context [if ?c then _ else _] => destruct c
          end).

Lemma findTag_rec_body (fuel : nat) (ber_data : list byte) (tagToFind : Z) :
  findTag_rec (S fuel) ber_data tagToFind
  = findTag_body (fun v => findTag_rec fuel v tagToFind) ber_data tagToFind.
Proof.
  cbn [findTag_rec]. unfold findTag_body, tlv_header. split_outcome.
Qed.

Lemma findTag_body_ext (rec1 rec2 : list byte -> outcome (list byte))
    (ber_data : list byte) (tagToFind : Z) :
  (forall v, (length v < length ber_data)%nat -> rec1 v = rec2 v) ->
  findTag_body rec1 ber_data tagToFind = findTag_body rec2 ber_data tagToFind.
Proof.
  intros Hrec. unfold findTag_body.
  destruct (Z.ltb_spec (size ber_data) 3) as [| Hsize]; [reflexivity |].
  destruct (tlv_header ber_data) as [[[tag len] hl] | |] eqn:Hh; cbn [bind];
    try reflexivity.
  apply tlv_header_bounds in Hh.
  assert (forall from to, 2 <= from -> to <= size ber_data ->
            rec1 (slice ber_data from to) = rec2 (slice ber_data from to)) as Hs.
  { intros from to Hfrom Hto. apply Hrec.
    pose proof (slice_length ber_data from to). unfold size in *. lia. }
  destruct (Z.geb_spec (size ber_data) (len + hl)) as [Hfit | Hfit].
  - destruct (tag =? tagToFind); cbn [bind]; [reflexivity |].
    rewrite (Hs hl (hl + len)) by lia.
    destruct (is_template tag); cbn [bind];
      [destruct (rec2 _) as [[| x v] | |]; cbn [bind negb is_empty]; try reflexivity |];
      (destruct (_ >? _); [apply Hs; lia | reflexivity]).
  - cbn [bind]. destruct (_ >? _); [apply Hs; lia | reflexivity].
Qed.

Lemma findTag_rec_fuel (n : nat) :
  forall (m : nat) (ber_data : list byte) (tagToFind : Z),
    (length ber_data < n)%nat -> (length ber_data < m)%nat ->
    findTag_rec n ber_data tagToFind = findTag_rec m ber_data tagToFind.
Proof.
  induction n as [| n IH]; intros m ber_data tagToFind Hn Hm; [lia |].
  destruct m as [| m]; [lia |].
  rewrite !findTag_rec_body. apply findTag_body_ext.
  intros v Hv. apply IH; lia.
Qed.

(** [findTag] satisfies the recursion of the source: the fuel it is started
    with is never used up. *)
Lemma findTag_unfold (ber_data : list byte) (tagToFind : Z) :
  findTag ber_data tagToFind
  = findTag_body (fun v => findTag v tagToFind) ber_data tagToFind.
Proof.
  unfold findTag at 1. rewrite findTag_rec_body. apply findTag_body_ext.
  intros v Hv. unfold findTag. apply findTag_rec_fuel; lia.
Qed.

Lemma findTag_terminates (ber_data : list byte) (tagToFind : Z) :
  findTag ber_data tagToFind <> OutOfFuel.
Proof.
  remember (length ber_data) as n eqn:Hn.
  revert ber_data Hn.
  induction n as [n IH] using lt_wf_ind. intros ber_data Hn.
  assert (forall v, (length v < length ber_data)%nat -> findTag v tagToFind <> OutOfFuel)
    as Hrec by (intros v Hv; apply (IH (length v)); [lia | reflexivity]).
  rewrite findTag_unfold. unfold findTag_body.
  destruct (Z.ltb_spec (size ber_data) 3) as [| Hsize]; [discriminate |].
  destruct (tlv_header ber_data) as [[[tag len] hl] | |] eqn:Hh; cbn [bind];
    [| discriminate |].
  - apply tlv_header_bounds in Hh.
    assert (forall from to, 2 <= from -> to <= size ber_data ->
              findTag (slice ber_data from to) tagToFind <> OutOfFuel) as Hs.
    { intros from to Hfrom Hto. apply Hrec.
      pose proof (slice_length ber_data from to). unfold size in *. lia. }
    destruct (Z.geb_spec (size ber_data) (len + hl)) as [Hfit | Hfit]; cbn [bind].
    + destruct (tag =? tagToFind); cbn [bind]; [discriminate |].
      pose proof (Hs hl (hl + len)) as Hv.
      destruct (is_template tag); cbn [bind];
        [destruct (findTag (slice ber_data hl (hl + len)) tagToFind) as [[| x v] | |];
         cbn [bind negb is_empty]; try discriminate; try (exfalso; apply Hv; [lia | lia | reflexivity]) |];
        (destruct (_ >? _); [apply Hs; lia | discriminate]).
    + destruct (_ >? _); [apply Hs; lia | discriminate].
  - exfalso. revert Hh. unfold tlv_header.
    repeat (first [next_read | destruct (_ =? _); cbn [bind negb]]); discriminate.
Qed.

(** What [findTag] returns is a value with a one-byte length: at most 255
    bytes, so the 8-bit positions of the track parsers do not wrap on it. *)
Lemma findTag_value_short (target : Z) (n : nat) :
  forall (buf r : list byte),
    length buf = n -> findTag buf target = Ok r -> size r <= 255.
Proof.
  induction n as [n IH] using lt_wf_ind. intros buf r Hn Hfind.
  rewrite findTag_unfold in Hfind. unfold findTag_body in Hfind.
  destruct (Z.ltb_spec (size buf) 3) as [| Hsize];
    [injection Hfind as <-; rewrite size_nil; lia |].
  destruct (tlv_header buf) as [[[tag len] hl] | |] eqn:Hh; cbn [bind] in Hfind;
    try discriminate Hfind.
  pose proof (tlv_header_bounds _ _ _ _ Hh) as [Hhl [Hlen Hle]].
  assert (forall from to v, 2 <= from -> to <= size buf ->
            findTag (slice buf from to) target = Ok v -> size v <= 255) as Hrec.
  { intros from to v Hfrom Hto Hv.
    apply (IH (length (slice buf from to))) with (buf := slice buf from to);
      [| reflexivity | exact Hv].
    pose proof (slice_length buf from to). unfold size in *. lia. }
  assert (size (slice buf hl (hl + len)) <= 255) as Hvalue.
  { pose proof (slice_length buf hl (hl + len)). unfold size. lia. }
  assert ((if size buf >? len + hl
           then findTag (slice buf (hl + len) (size buf)) target
           else Ok []) = Ok r -> size r <= 255) as Hsiblings.
  { destruct (size buf >? len + hl); intros E.
    - eapply Hrec; [| | exact E]; lia.
    - injection E as <-. rewrite size_nil. lia. }
  destruct (Z.geb_spec (size buf) (len + hl)) as [Hfit | Hover]; cbn [bind] in Hfind;
    [| exact (Hsiblings Hfind)].
  destruct (tag =? target); cbn [bind] in Hfind; [injection Hfind as <-; exact Hvalue |].
  destruct (is_template tag); cbn [bind] in Hfind; [| exact (Hsiblings Hfind)].
  destruct (findTag (slice buf hl (hl + len)) target) as [[| x inner] | |] eqn:Hinner;
    cbn [bind negb is_empty] in Hfind; try discriminate Hfind.
  - exact (Hsiblings Hfind).
  - injection Hfind as <-. eapply Hrec; [| | exact Hinner]; lia.
Qed.

(** *** The TLV structure, and [findTag] as a search in it *)

Lemma testbit7_land (b : byte) :
  Z.testbit (u8 b) 7 = negb (Z.land (u8 b) 0x80 =? 0).
Proof. destruct b; reflexivity. Qed.

Lemma shiftl8_lor (t b : byte) :
  Z.lor (Z.shiftl (u8 t) 8) (u8 b) = Z.shiftl (u8 t) 8 + u8 b.
Proof.
  assert (Z.land (Z.shiftl (u8 t) 8) (u8 b) = 0) as D.
  { apply Z.bits_inj'. intros n Hn.
    rewrite Z.land_spec, Z.bits_0.
    destruct (Z.lt_ge_cases n 8) as [Hlow | Hhigh].
    - rewrite Z.shiftl_spec_low by lia. reflexivity.
    - destruct (Z.eq_dec (u8 b) 0) as [Hz | Hz].
      + rewrite Hz, Z.bits_0. apply andb_false_r.
      + rewrite (Z.bits_above_log2 (u8 b) n); [apply andb_false_r | apply u8_range |].
        pose proof (u8_range b).
        assert (Z.log2 (u8 b) < 8) by (apply Z.log2_lt_pow2; lia). lia. }
  rewrite <- (Z.lxor_lor _ _ D). symmetry. apply Z.add_nocarry_lxor. exact D.
Qed.

Lemma is_template_constructed (tag : Z) : is_template tag = is_constructed tag.
Proof.
  unfold is_template, is_constructed, constructed_tags. cbn [existsb].
  rewrite orb_false_r, !orb_assoc. reflexivity.
Qed.

Lemma decode_tag_suffix (buf r : list byte) (tag : Z) :
  decode_tag buf = Some (tag, r) ->
  exists pre, buf = pre ++ r /\ (1 <= length pre)%nat.
Proof.
  destruct buf as [| t [| b rest]]; cbn [decode_tag]; [discriminate | |].
  - destruct (_ =? _); [discriminate |].
    intros H; injection H as _ <-. exists [t]. split; [reflexivity | simpl; lia].
  - destruct (_ =? _); intros H; injection H as _ <-.
    + exists [t; b]. split; [reflexivity | simpl; lia].
    + exists [t]. split; [reflexivity | simpl; lia].
Qed.

Lemma decode_length_suffix (buf r : list byte) (len : Z) :
  decode_length buf = Some (len, r) ->
  exists pre, buf = pre ++ r /\ (1 <= length pre)%nat.
Proof.
  destruct buf as [| l [| n rest]]; cbn [decode_length]; [discriminate | |].
  - destruct (Z.testbit _ _); [discriminate |].
    intros H; injection H as _ <-. exists [l]. split; [reflexivity | simpl; lia].
  - destruct (Z.testbit _ _); intros H; injection H as _ <-.
    + exists [l; n]. split; [reflexivity | simpl; lia].
    + exists [l]. split; [reflexivity | simpl; lia].
Qed.

(** The header [findTag] reads is the header of the first node, and reading
    it runs out of the buffer exactly when that header is cut short. *)
Lemma tlv_header_decode (buf : list byte) :
  3 <= size buf ->
  tlv_header buf
  = match decode_tag buf with
    | None => OutOfRange
    | Some (tag, r) =>
        match decode_length r with
        | None => OutOfRange
        | Some (len, r') => Ok (tag, len, size buf - size r')
        end
    end.
Proof.
  intros Hsize.
  destruct buf as [| b0 [| b1 [| b2 rest]]];
    try (rewrite ?size_cons, size_nil in Hsize; lia).
  unfold tlv_header.
  change (at_ (b0 :: b1 :: b2 :: rest) 0) with (Ok (u8 b0)).
  cbn [bind decode_tag].
  destruct (Z.land (u8 b0) 31 =? 31); cbn [bind].
  - change (at_ (b0 :: b1 :: b2 :: rest) 1) with (Ok (u8 b1)). cbn [bind].
    change (at_ (b0 :: b1 :: b2 :: rest) 2) with (Ok (u8 b2)). cbn [bind decode_length].
    rewrite testbit7_land, shiftl8_lor.
    destruct (negb (Z.land (u8 b2) 128 =? 0)); cbn [bind].
    + destruct rest as [| b3 rest]; [reflexivity |].
      change (at_ (b0 :: b1 :: b2 :: b3 :: rest) (2 + 1)) with (Ok (u8 b3)). cbn [bind].
      do 2 f_equal. rewrite !size_cons. lia.
    + do 2 f_equal. rewrite !size_cons. lia.
  - change (at_ (b0 :: b1 :: b2 :: rest) 1) with (Ok (u8 b1)). cbn [bind decode_length].
    rewrite testbit7_land.
    destruct (negb (Z.land (u8 b1) 128 =? 0)); cbn [bind].
    + change (at_ (b0 :: b1 :: b2 :: rest) (1 + 1)) with (Ok (u8 b2)). cbn [bind].
      do 2 f_equal. rewrite !size_cons. lia.
    + do 2 f_equal. rewrite !size_cons. lia.
Qed.

Lemma slice_app_value (pre r : list byte) (len : Z) :
  0 <= len ->
  slice (pre ++ r) (size pre) (size pre + len) = firstn (Z.to_nat len) r.
Proof.
  intros Hlen. unfold slice, size. rewrite Nat2Z.id.
  rewrite skipn_app, skipn_all, Nat.sub_diag. cbn [app skipn].
  f_equal. lia.
Qed.

Lemma slice_app_rest (pre r : list byte) (len : Z) :
  0 <= len ->
  slice (pre ++ r) (size pre + len) (size (pre ++ r)) = skipn (Z.to_nat len) r.
Proof.
  intros Hlen. rewrite slice_to_end. unfold size.
  rewrite Z2Nat.inj_add, Nat2Z.id by lia.
  rewrite Nat.add_comm, <- skipn_skipn.
  rewrite skipn_app, skipn_all, Nat.sub_diag. reflexivity.
Qed.

Lemma decode_node_header (buf : list byte) (tag len hl : Z) :
  3 <= size buf ->
  tlv_header buf = Ok (tag, len, hl) ->
  decode_node buf
  = if size buf >=? len + hl
    then Some (tag, slice buf hl (hl + len), slice buf (hl + len) (size buf))
    else None.
Proof.
  intros Hsize Hh. pose proof (tlv_header_bounds _ _ _ _ Hh) as [_ [Hlen _]].
  rewrite tlv_header_decode in Hh by exact Hsize.
  unfold decode_node.
  destruct (Z.ltb_spec (size buf) 3) as [| _]; [lia |].
  destruct (decode_tag buf) as [[tag' r] |] eqn:Et; [| discriminate].
  destruct (decode_length r) as [[len' r'] |] eqn:El; [| discriminate].
  injection Hh as -> -> <-.
  apply decode_tag_suffix in Et. destruct Et as [pre1 [-> _]].
  apply decode_length_suffix in El. destruct El as [pre2 [-> _]].
  rewrite app_assoc.
  replace (size ((pre1 ++ pre2) ++ r') - size r') with (size (pre1 ++ pre2))
    by (rewrite (size_app (pre1 ++ pre2)); lia).
  rewrite slice_app_value, slice_app_rest by lia.
  rewrite (size_app (pre1 ++ pre2)).
  destruct (Z.leb_spec len (size r')),
           (Z.geb_spec (size (pre1 ++ pre2) + size r') (len + size (pre1 ++ pre2)));
    try reflexivity; lia.
Qed.

Lemma decode_node_shorter (buf value rest : list byte) (tag : Z) :
  decode_node buf = Some (tag, value, rest) ->
  (length value < length buf)%nat /\ (length rest < length buf)%nat.
Proof.
  unfold decode_node. destruct (size buf <? 3); [discriminate |].
  destruct (decode_tag buf) as [[tag' r] |] eqn:Et; [| discriminate].
  destruct (decode_length r) as [[len r'] |] eqn:El; [| discriminate].
  destruct (len <=? size r'); [| discriminate].
  intros H; injection H as _ <- <-.
  apply decode_tag_suffix in Et. destruct Et as [pre1 [-> H1]].
  apply decode_length_suffix in El. destruct El as [pre2 [-> H2]].
  rewrite length_firstn, length_skipn, !length_app. lia.
Qed.

Lemma tlv_nodes_rec_fuel (n : nat) :
  forall (m : nat) (buf : list byte),
    (length buf <= n)%nat -> (length buf <= m)%nat ->
    tlv_nodes_rec n buf = tlv_nodes_rec m buf.
Proof.
  induction n as [| n IH]; intros m buf Hn Hm.
  - destruct buf; [| simpl in Hn; lia]. destruct m; reflexivity.
  - destruct m as [| m].
    + destruct buf; [| simpl in Hm; lia]. reflexivity.
    + cbn [tlv_nodes_rec].
      destruct (decode_node buf) as [[[tag value] rest] |] eqn:E; [| reflexivity].
      apply decode_node_shorter in E. destruct E as [Hv Hr].
      rewrite (IH m value), (IH m rest) by lia. reflexivity.
Qed.

(** The depth-first order, as an equation on buffers. *)
Lemma tlv_nodes_unfold (buf : list byte) :
  tlv_nodes buf
  = match decode_node buf with
    | None => []
    | Some (tag, value, rest) =>
        (tag, value)
        :: (if is_constructed tag then tlv_nodes value else [])
        ++ tlv_nodes rest
    end.
Proof.
  unfold tlv_nodes at 1.
  destruct (length buf) as [| n] eqn:Hn.
  - apply length_zero_iff_nil in Hn. subst buf. reflexivity.
  - cbn [tlv_nodes_rec].
    destruct (decode_node buf) as [[[tag value] rest] |] eqn:E; [| reflexivity].
    apply decode_node_shorter in E. destruct E as [Hv Hr].
    unfold tlv_nodes.
    rewrite (tlv_nodes_rec_fuel n (length value) value),
            (tlv_nodes_rec_fuel n (length rest) rest) by lia.
    reflexivity.
Qed.

Lemma first_value_head (target tag : Z) (value : list byte)
    (nodes : list (Z * list byte)) :
  tag = target -> first_value target ((tag, value) :: nodes) = value.
Proof.
  intros ->. unfold first_value. cbn [find fst]. rewrite Z.eqb_refl. reflexivity.
Qed.

Lemma first_value_skip (target tag : Z) (value : list byte)
    (nodes : list (Z * list byte)) :
  tag <> target -> first_value target ((tag, value) :: nodes) = first_value target nodes.
Proof.
  intros N. unfold first_value. cbn [find fst].
  destruct (Z.eqb_spec tag target); [contradiction | reflexivity].
Qed.

Lemma first_value_app_found (target : Z) (l1 l2 : list (Z * list byte)) :
  first_value target l1 <> [] -> first_value target (l1 ++ l2) = first_value target l1.
Proof.
  unfold first_value. induction l1 as [| n l1 IH]; cbn [find app]; [congruence |].
  destruct (fst n =? target); [reflexivity | exact IH].
Qed.

Lemma first_value_app_missing (target : Z) (l1 l2 : list (Z * list byte)) :
  (forall v, In (target, v) l1 -> v <> []) ->
  first_value target l1 = [] ->
  first_value target (l1 ++ l2) = first_value target l2.
Proof.
  unfold first_value. induction l1 as [| [k v] l1 IH]; cbn [find app fst snd];
    intros Hne E; [reflexivity |].
  destruct (Z.eqb_spec k target) as [-> | N].
  - exfalso. apply (Hne v); [left; reflexivity | exact E].
  - apply IH; [| exact E]. intros w Hw. apply Hne. right. exact Hw.
Qed.

Lemma findTag_first_value (target : Z) (n : nat) :
  forall (buf r : list byte),
    length buf = n ->
    findTag buf target = Ok r ->
    (forall v, In (target, v) (tlv_nodes buf) -> v <> []) ->
    r = first_value target (tlv_nodes buf).
Proof.
  induction n as [n IH] using lt_wf_ind. intros buf r Hn Hfind Hne.
  rewrite findTag_unfold in Hfind. unfold findTag_body in Hfind.
  rewrite tlv_nodes_unfold in Hne |- *.
  destruct (Z.ltb_spec (size buf) 3) as [Hshort | Hsize].
  - unfold decode_node. destruct (Z.ltb_spec (size buf) 3); [| lia].
    injection Hfind as <-. reflexivity.
  - destruct (tlv_header buf) as [[[tag len] hl] | |] eqn:Hh; cbn [bind] in Hfind;
      try discriminate Hfind.
    pose proof (tlv_header_bounds _ _ _ _ Hh) as [Hhl [Hlen Hle]].
    rewrite (decode_node_header _ _ _ _ Hsize Hh) in Hne |- *.
    destruct (Z.geb_spec (size buf) (len + hl)) as [Hfit | Hover]; cbn [bind] in Hfind.
    + set (value := slice buf hl (hl + len)) in *.
      set (rest := slice buf (hl + len) (size buf)) in *.
      assert (length value < n)%nat as Hvalue
        by (pose proof (slice_length buf hl (hl + len)); unfold size in *; subst value; lia).
      assert (length rest < n)%nat as Hrest.
      { subst rest. rewrite slice_to_end, length_skipn. unfold size in *. lia. }
      destruct (Z.eqb_spec tag target) as [Htag | Htag]; cbn [bind] in Hfind.
      * injection Hfind as <-. symmetry. apply first_value_head. exact Htag.
      * rewrite first_value_skip by exact Htag.
        assert (forall v, In (target, v)
                  (if is_constructed tag then tlv_nodes value else []) -> v <> [])
          as Hne1 by (intros v Hv; apply Hne; right; apply in_or_app; left; exact Hv).
        assert (forall v, In (target, v) (tlv_nodes rest) -> v <> [])
          as Hne2 by (intros v Hv; apply Hne; right; apply in_or_app; right; exact Hv).
        assert ((if size buf >? len + hl then findTag rest target else Ok []) = Ok r ->
                r = first_value target (tlv_nodes rest)) as Hsiblings.
        { destruct (Z.gtb_spec (size buf) (len + hl)) as [Hmore | Hend]; intros E.
          - apply (IH (length rest) Hrest rest r eq_refl E Hne2).
          - injection E as <-.
            assert (rest = []) as ->; [| reflexivity].
            subst rest. rewrite slice_to_end. apply skipn_all2. unfold size in *. lia. }
        rewrite is_template_constructed in Hfind.
        destruct (is_constructed tag); cbn [bind] in Hfind.
        -- destruct (findTag value target) as [inner | |] eqn:Hinner; cbn [bind] in Hfind;
             try discriminate Hfind.
           pose proof (IH (length value) Hvalue value inner eq_refl Hinner Hne1) as Hin.
           destruct inner as [| x inner]; cbn [negb is_empty bind] in Hfind.
           ++ rewrite first_value_app_missing; [| exact Hne1 | symmetry; exact Hin].
              apply Hsiblings. exact Hfind.
           ++ injection Hfind as <-.
              rewrite first_value_app_found; [exact Hin | rewrite <- Hin; discriminate].
        -- cbn [app]. apply Hsiblings. exact Hfind.
    + destruct (Z.gtb_spec (size buf) (len + hl)); [lia |].
      injection Hfind as <-. reflexivity.
Qed.

(** C4, as stated, fails: the first node that carries the target in
    depth-first order has an empty value, and [findTag] returns the value of
    a later node. *)
Lemma findTag_skips_empty_nested_match :
  ~ (forall (buf : list byte) (target : Z),
        findTag buf target = Ok (first_value target (tlv_nodes buf))).
Proof.
  intros H. specialize (H nested_empty_sample 0x57).
  assert (findTag nested_empty_sample 0x57 = Ok (bytes [0xAA]))
    as E by (vm_compute; reflexivity).
  assert (first_value 0x57 (tlv_nodes nested_empty_sample) = [])
    as F by (vm_compute; reflexivity).
  rewrite E, F in H. vm_compute in H. discriminate H.
Qed.

(** C4 (amended): on a buffer in which no node that carries the target tag
    has an empty value, [findTag], when it returns, returns the value of the
    first node whose tag equals the target in depth-first order (the node,
    then its value when its tag is one of the constructed tags, then the
    sibling buffer), and the empty sequence when no node carries the target;
    a buffer of fewer than 3 bytes always gives the empty sequence, and the
    search never runs without end. *)
Theorem findTag_first_match (buf : list byte) (target : Z) :
  (size buf < 3 -> findTag buf target = Ok [])
  /\ findTag buf target <> OutOfFuel
  /\ (forall r,
        findTag buf target = Ok r ->
        (forall v, In (target, v) (tlv_nodes buf) -> v <> []) ->
        r = first_value target (tlv_nodes buf)).
Proof.
  split; [| split].
  - intros Hshort. rewrite findTag_unfold. unfold findTag_body.
    destruct (Z.ltb_spec (size buf) 3); [reflexivity | lia].
  - apply findTag_terminates.
  - intros r Hfind Hne. exact (findTag_first_value target (length buf) buf r eq_refl Hfind Hne).
Qed.

Lemma findTag_first_match_witness :
  bytes [0xA0; 0x00; 0x00; 0x00; 0x03; 0x10; 0x10]
  = first_value 0x4F (tlv_nodes (slice (answer ppse_reply) 1 (size (answer ppse_reply) - 2))).
Proof.
  apply (findTag_first_match (slice (answer ppse_reply) 1 (size (answer ppse_reply) - 2)) 0x4F).
  - vm_compute. reflexivity.
  - intros v Hv. vm_compute in Hv.
    repeat (destruct Hv as [Hv | Hv]; [try discriminate Hv |]); [| contradiction].
    injection Hv as <-. discriminate.
Defined.

Lemma findTag_first_node (buf value rest : list byte) (tag : Z) :
  decode_node buf = Some (tag, value, rest) ->
  findTag buf tag = Ok value.
Proof.
  intros Hnode. pose proof Hnode as Hdec. unfold decode_node in Hdec.
  destruct (Z.ltb_spec (size buf) 3) as [| Hsize]; [discriminate |].
  pose proof (tlv_header_decode buf Hsize) as Hh.
  destruct (decode_tag buf) as [[tag' r] |]; [| discriminate].
  destruct (decode_length r) as [[len r'] |]; [| discriminate].
  destruct (len <=? size r'); [| discriminate].
  injection Hdec as -> _ _.
  rewrite (decode_node_header _ _ _ _ Hsize Hh) in Hnode.
  rewrite findTag_unfold. unfold findTag_body.
  destruct (Z.ltb_spec (size buf) 3); [lia |].
  rewrite Hh. cbn [bind].
  destruct (size buf >=? len + (size buf - size r')); [| discriminate].
  injection Hnode as <- _. rewrite Z.eqb_refl. reflexivity.
Qed.

(** C5, as stated, fails: a length written with two extra length bytes is not
    refused; the first of them is taken as the length and a value comes out. *)
Lemma findTag_two_length_bytes_not_refused :
  ~ (forall (t l : byte) (rest : list byte),
        Z.land (u8 t) 0x1F <> 0x1F ->
        Z.testbit (u8 l) 7 = true ->
        1 < announced_length_bytes l ->
        forall r, findTag (t :: l :: rest) (u8 t) = Ok r -> r = []).
Proof.
  intros H.
  specialize (H (to_u8 0x57) (to_u8 0x82) (bytes [0x01; 0x00; 0xAA; 0xBB])).
  assert (findTag two_length_bytes_sample 0x57 = Ok (bytes [0x00]))
    as E by (vm_compute; reflexivity).
  specialize (H ltac:(vm_compute; discriminate) ltac:(vm_compute; reflexivity)
                ltac:(vm_compute; reflexivity) (bytes [0x00]) E).
  vm_compute in H. discriminate H.
Qed.

(** C5 (amended): in [findTag] a length byte with the high bit set is
    followed by exactly one byte, which is taken as the length (0 to 255)
    whatever number of length bytes the first byte announces; the value of
    that length is returned, so an encoding that needs more than one extra
    length byte is not refused. *)
Theorem findTag_long_form_length (hdr value rest : list byte) (tag : Z) (l n : byte) :
  encodes_tag hdr tag ->
  Z.testbit (u8 l) 7 = true ->
  size value = u8 n ->
  findTag (hdr ++ l :: n :: value ++ rest) tag = Ok value.
Proof.
  intros Hhdr Hlong Hn. apply (findTag_first_node _ value rest).
  assert (decode_length (l :: n :: value ++ rest) = Some (u8 n, value ++ rest)) as El
    by (cbn [decode_length]; rewrite Hlong; reflexivity).
  assert (firstn (Z.to_nat (u8 n)) (value ++ rest) = value) as Ev.
  { rewrite <- Hn. unfold size. rewrite Nat2Z.id, firstn_app, Nat.sub_diag, firstn_all.
    cbn [firstn]. apply app_nil_r. }
  assert (skipn (Z.to_nat (u8 n)) (value ++ rest) = rest) as Er.
  { rewrite <- Hn. unfold size. rewrite Nat2Z.id, skipn_app, Nat.sub_diag, skipn_all.
    reflexivity. }
  assert ((u8 n <=? size (value ++ rest)) = true) as Efit.
  { rewrite size_app, <- Hn. apply Z.leb_le. pose proof (size_nonneg rest). lia. }
  unfold decode_node.
  destruct Hhdr as [[t [-> [Ht ->]]] | [t [b [-> [Ht ->]]]]]; cbn [app].
  - destruct (Z.ltb_spec (size (t :: l :: n :: value ++ rest)) 3) as [Hs | _].
    { rewrite !size_cons in Hs. pose proof (size_nonneg (value ++ rest)). lia. }
    cbn [decode_tag]. destruct (Z.eqb_spec (Z.land (u8 t) 31) 31); [contradiction |].
    rewrite El, Efit, Ev, Er. reflexivity.
  - destruct (Z.ltb_spec (size (t :: b :: l :: n :: value ++ rest)) 3) as [Hs | _].
    { rewrite !size_cons in Hs. pose proof (size_nonneg (value ++ rest)). lia. }
    cbn [decode_tag]. rewrite Ht, Z.eqb_refl, shiftl8_lor.
    rewrite El, Efit, Ev, Er. reflexivity.
Qed.

Lemma findTag_long_form_length_witness :
  findTag two_length_bytes_sample 0x57 = Ok (bytes [0x00]).
Proof.
  apply (findTag_long_form_length [to_u8 0x57] (bytes [0x00]) (bytes [0xAA; 0xBB])
           0x57 (to_u8 0x82) (to_u8 0x01)).
  - left. exists (to_u8 0x57). split; [reflexivity |].
    split; [vm_compute; discriminate | reflexivity].
  - vm_compute. reflexivity.
  - vm_compute. reflexivity.
Defined.

(** ** Reads of [findTag] past the end of the buffer *)

(** C10 is violated by the code: on a 3-byte buffer whose first byte opens a
    two-byte tag and whose third byte is a long-form length byte, [findTag]
    reads index 3. *)
Theorem findTag_reads_past_three_bytes (t b l : byte) (target : Z) :
  Z.land (u8 t) 0x1F = 0x1F ->
  Z.land (u8 l) 0x80 <> 0 ->
  findTag [t; b; l] target = OutOfRange.
Proof.
  intros Ht Hl. unfold findTag. cbn [length findTag_rec].
  change (size [t; b; l] <? 3) with false. cbv iota.
  change (at_ [t; b; l] 0) with (Ok (u8 t)). cbn [bind].
  rewrite Ht, Z.eqb_refl.
  change (at_ [t; b; l] 1) with (Ok (u8 b)). cbn [bind].
  change (at_ [t; b; l] 2) with (Ok (u8 l)). cbn [bind].
  destruct (Z.eqb_spec (Z.land (u8 l) 128) 0); [contradiction |].
  reflexivity.
Qed.

Lemma findTag_reads_past_three_bytes_witness :
  findTag (bytes [0x9F; 0x38; 0x81]) 0x9F38 = OutOfRange.
Proof.
  apply (findTag_reads_past_three_bytes (to_u8 0x9F) (to_u8 0x38) (to_u8 0x81) 0x9F38).
  - vm_compute. reflexivity.
  - vm_compute. discriminate.
Defined.

(** ** constructPdolData *)

Lemma constructPdolData_loop_consumes (fuel : nat) :
  forall (pdol result r pdol' : list byte),
    constructPdolData_loop fuel pdol result = Ok (r, pdol') ->
    size pdol' < 2
    /\ exists consumed, pdol = consumed ++ pdol'
                        /\ (2 <= size pdol -> 2 <= size consumed).
Proof.
  induction fuel as [| fuel IH]; intros pdol result r pdol' H; [discriminate H |].
  cbn [constructPdolData_loop] in H.
  destruct (Z.gtb_spec (size pdol) 1) as [Hmore | Hdone].
  - assert (forall hl res, 2 <= hl <= size pdol ->
              constructPdolData_loop fuel (skipn (Z.to_nat hl) pdol) res = Ok (r, pdol') ->
              size pdol' < 2
              /\ exists consumed, pdol = consumed ++ pdol'
                                  /\ (2 <= size pdol -> 2 <= size consumed)) as Hstep.
    { intros hl res Hhl Hrec. apply IH in Hrec. destruct Hrec as [Hsmall [c [Hc _]]].
      split; [exact Hsmall |].
      exists (firstn (Z.to_nat hl) pdol ++ c). split.
      - rewrite <- app_assoc, <- Hc. symmetry. apply firstn_skipn.
      - intros _. rewrite size_app. unfold size at 1. rewrite length_firstn.
        pose proof (size_nonneg c). unfold size in *. lia. }
    revert H. next_read; try discriminate.
    destruct (Z.land z 31 =? 31); cbn [bind].
    + next_read; try discriminate. next_read; try discriminate.
      apply Hstep. lia.
    + next_read; try discriminate. apply Hstep. lia.
  - injection H as _ <-. split; [lia |].
    exists []. split; [reflexivity | lia].
Qed.

Lemma constructPdolData_loop_terminates (fuel : nat) :
  forall (pdol result : list byte),
    (length pdol < fuel)%nat ->
    constructPdolData_loop fuel pdol result <> OutOfFuel.
Proof.
  induction fuel as [| fuel IH]; intros pdol result Hfuel; [lia |].
  cbn [constructPdolData_loop].
  destruct (Z.gtb_spec (size pdol) 1) as [Hmore | _]; [| discriminate].
  assert (forall hl res, 1 <= hl ->
            constructPdolData_loop fuel (skipn (Z.to_nat hl) pdol) res <> OutOfFuel) as Hstep.
  { intros hl res Hhl. apply IH. rewrite length_skipn. unfold size in Hmore. lia. }
  next_read; try discriminate.
  destruct (Z.land z 31 =? 31); cbn [bind].
  - next_read; try discriminate. next_read; try discriminate. apply Hstep. lia.
  - next_read; try discriminate. apply Hstep. lia.
Qed.

(** The synthesis never runs without end: it returns, or reads past the end
    of a request that stops in the middle of a header. *)
Lemma constructPdolData_terminates (pdol : list byte) :
  constructPdolData pdol <> OutOfFuel.
Proof.
  unfold constructPdolData. destruct (size pdol <? 2); [discriminate |].
  apply constructPdolData_loop_terminates. lia.
Qed.

(** C7, as stated, fails: the request that names the terminal country code is
    left empty by the call. *)
Lemma constructPdolData_changes_request :
  ~ (forall (pdol result pdol' : list byte),
        constructPdolData pdol = Ok (result, pdol') -> pdol' = pdol).
Proof.
  intros H.
  specialize (H (bytes [0x9F; 0x1A; 0x02]) (bytes [0x02; 0x76]) []).
  assert (constructPdolData (bytes [0x9F; 0x1A; 0x02]) = Ok (bytes [0x02; 0x76], []))
    as E by (vm_compute; reflexivity).
  specialize (H E). vm_compute in H. discriminate H.
Qed.

(** C7 (amended): [constructPdolData] consumes its request buffer: a request
    of fewer than 2 bytes is left as it is and gives no data; after a request
    of 2 bytes or more the caller's buffer holds what is left behind the
    headers that were erased from its front, fewer than 2 bytes. *)
Theorem constructPdolData_consumes_request (pdol result pdol' : list byte) :
  constructPdolData pdol = Ok (result, pdol') ->
  (size pdol < 2 -> pdol' = pdol /\ result = [])
  /\ (2 <= size pdol ->
      size pdol' < 2
      /\ exists consumed, pdol = consumed ++ pdol' /\ 2 <= size consumed).
Proof.
  unfold constructPdolData. intros H.
  destruct (Z.ltb_spec (size pdol) 2) as [Hshort | Hlong].
  - injection H as <- <-. split; [intros _; split; reflexivity | lia].
  - split; [lia |]. intros _.
    apply constructPdolData_loop_consumes in H.
    destruct H as [Hsmall [c [Hc Hsize]]].
    split; [exact Hsmall |]. exists c. split; [exact Hc | exact (Hsize Hlong)].
Qed.

Lemma constructPdolData_consumes_request_witness :
  size (@nil byte) < 2
  /\ exists consumed, bytes [0x9F; 0x1A; 0x02] = consumed ++ [] /\ 2 <= size consumed.
Proof.
  apply (constructPdolData_consumes_request
           (bytes [0x9F; 0x1A; 0x02]) (bytes [0x02; 0x76]) []).
  - vm_compute. reflexivity.
  - vm_compute. discriminate.
Defined.

(** ** sendAPDU *)

Section Exchange.

Variable T : Type.
Variable write_command_ : T -> list byte -> T * bool.
Variable read_response : T -> Z -> list byte -> T * bool * list byte.
Variable PN532_COMMAND_INDATAEXCHANGE : Z.

Local Abbreviation send :=
  (sendAPDU T write_command_ read_response PN532_COMMAND_INDATAEXCHANGE).

Local Abbreviation command apdu :=
  ([to_u8 PN532_COMMAND_INDATAEXCHANGE; to_u8 0x01] ++ apdu).

Lemma two_last (raw : list byte) :
  2 <= size raw -> exists body sw1 sw2, raw = body ++ [sw1; sw2].
Proof.
  intros Hsize.
  destruct (exists_last (l := raw)) as [l1 [sw2 ->]].
  { intros ->. rewrite size_nil in Hsize. lia. }
  destruct (exists_last (l := l1)) as [body [sw1 ->]].
  { intros ->. rewrite size_app, size_cons, !size_nil in Hsize. lia. }
  exists body, sw1, sw2. rewrite <- app_assoc. reflexivity.
Qed.

(** The status checks on a response of two bytes or more. *)
Lemma sendAPDU_checks (st st1 st2 : T) (apdu response body : list byte) (sw1 sw2 : byte) :
  write_command_ st (command apdu) = (st1, true) ->
  read_response st1 PN532_COMMAND_INDATAEXCHANGE response = (st2, true, body ++ [sw1; sw2]) ->
  send st apdu response
  = if (u8 (hd sw1 body) =? 0x00) && (u8 sw2 =? 0x00) && (u8 sw1 =? 0x90)
    then Ok (st2, true, tl body)
    else Ok (st2, false, body ++ [sw1; sw2]).
Proof.
  intros Hw Hr. unfold sendAPDU in *. rewrite Hw. cbn [negb]. rewrite Hr. cbn [negb].
  assert (at_ (body ++ [sw1; sw2]) 0 = Ok (u8 (hd sw1 body))) as E0
    by (destruct body; reflexivity).
  assert (at_ (body ++ [sw1; sw2]) (size (body ++ [sw1; sw2]) - 1) = Ok (u8 sw2)) as E1.
  { replace (size (body ++ [sw1; sw2]) - 1) with (size (body ++ [sw1]))
      by (rewrite !size_app, !size_cons, size_nil; lia).
    replace (body ++ [sw1; sw2]) with ((body ++ [sw1]) ++ [sw2])
      by (rewrite <- app_assoc; reflexivity).
    apply at_app. }
  assert (at_ (body ++ [sw1; sw2]) (size (body ++ [sw1; sw2]) - 2) = Ok (u8 sw1)) as E2.
  { replace (size (body ++ [sw1; sw2]) - 2) with (size body)
      by (rewrite !size_app, !size_cons, size_nil; lia).
    apply at_app. }
  rewrite E0, E1, E2. cbn [bind].
  destruct (Z.eqb_spec (u8 (hd sw1 body)) 0) as [H0 | H0]; cbn [negb andb]; [| reflexivity].
  destruct (Z.eqb_spec (u8 sw2) 0) as [H2 | H2]; cbn [negb andb]; [| reflexivity].
  destruct (Z.eqb_spec (u8 sw1) 144) as [H1 | H1]; cbn [negb andb]; [| reflexivity].
  destruct body as [| first mid]; [cbn [hd] in H0; lia |].
  do 2 f_equal. cbn [tl app].
  replace (size (first :: mid ++ [sw1; sw2]) - 2) with (size [first] + size mid)
    by (rewrite !size_cons, size_app, !size_cons, !size_nil; lia).
  change (first :: mid ++ [sw1; sw2]) with ([first] ++ mid ++ [sw1; sw2]).
  rewrite slice_app_value by apply size_nonneg.
  unfold size. rewrite Nat2Z.id, firstn_app, Nat.sub_diag, firstn_all.
  cbn [firstn]. apply app_nil_r.
Qed.

(** The exchange rule, for the responses that have the bytes it speaks of:
    [sendAPDU] reports failure when the write fails, when the read fails,
    when the response has a first byte that is not zero, and when the
    response has two last bytes that are not 0x90, 0x00; when it reports
    success, what it returns is the response without its leading byte and
    without its two status bytes. A response without two last bytes is not
    covered here. *)
Theorem sendAPDU_outcomes (st st1 st2 : T) (apdu response raw : list byte)
    (written received : bool) :
  write_command_ st (command apdu) = (st1, written) ->
  read_response st1 PN532_COMMAND_INDATAEXCHANGE response = (st2, received, raw) ->
  (written = false -> send st apdu response = Ok (st1, false, response))
  /\ (written = true -> received = false ->
      send st apdu response = Ok (st2, false, raw))
  /\ (written = true -> received = true ->
      forall first rest, raw = first :: rest -> u8 first <> 0x00 ->
      send st apdu response = Ok (st2, false, raw))
  /\ (written = true -> received = true ->
      forall body sw1 sw2, raw = body ++ [sw1; sw2] ->
      u8 sw1 <> 0x90 \/ u8 sw2 <> 0x00 ->
      send st apdu response = Ok (st2, false, raw))
  /\ (forall st' payload,
        send st apdu response = Ok (st', true, payload) ->
        written = true /\ received = true /\ st' = st2
        /\ raw = to_u8 0x00 :: payload ++ bytes [0x90; 0x00])
  /\ (written = true -> received = true ->
      forall payload, raw = to_u8 0x00 :: payload ++ bytes [0x90; 0x00] ->
      send st apdu response = Ok (st2, true, payload)).
Proof.
  intros Hw Hr.
  split; [| split; [| split; [| split; [| split]]]].
  - intros ->. unfold sendAPDU in *. rewrite Hw. reflexivity.
  - intros -> ->. unfold sendAPDU in *. rewrite Hw. cbn [negb]. rewrite Hr. reflexivity.
  - intros -> -> first rest -> Hfirst. unfold sendAPDU in *.
    rewrite Hw. cbn [negb]. rewrite Hr. cbn [negb].
    change (at_ (first :: rest) 0) with (Ok (u8 first)). cbn [bind].
    destruct (Z.eqb_spec (u8 first) 0); [contradiction | reflexivity].
  - intros -> -> body sw1 sw2 -> Hsw.
    rewrite (sendAPDU_checks _ _ _ _ _ _ _ _ Hw Hr).
    destruct (Z.eqb_spec (u8 sw2) 0), (Z.eqb_spec (u8 sw1) 144);
      rewrite ?andb_false_r; try reflexivity.
    destruct Hsw; contradiction.
  - intros st' payload Hsend.
    destruct written.
    2: { unfold sendAPDU in *. rewrite Hw in Hsend. discriminate Hsend. }
    destruct received.
    2: { unfold sendAPDU in *. rewrite Hw in Hsend. cbn [negb] in Hsend.
         rewrite Hr in Hsend. discriminate Hsend. }
    destruct (Z.lt_ge_cases (size raw) 2) as [Hshort | Hlong].
    + exfalso. unfold sendAPDU in *. rewrite Hw in Hsend. cbn [negb] in Hsend.
      rewrite Hr in Hsend. cbn [negb] in Hsend.
      destruct raw as [| x [| y raw]].
      * discriminate Hsend.
      * change (at_ [x] 0) with (Ok (u8 x)) in Hsend.
        change (at_ [x] (size [x] - 1)) with (Ok (u8 x)) in Hsend.
        change (at_ [x] (size [x] - 2)) with (@OutOfRange Z) in Hsend.
        cbn [bind] in Hsend.
        destruct (u8 x =? 0); cbn [negb bind] in Hsend; discriminate Hsend.
      * rewrite !size_cons in Hshort. pose proof (size_nonneg raw). lia.
    + destruct (two_last raw Hlong) as [body [sw1 [sw2 ->]]].
      rewrite (sendAPDU_checks _ _ _ _ _ _ _ _ Hw Hr) in Hsend.
      destruct (Z.eqb_spec (u8 (hd sw1 body)) 0) as [H0 | H0]; cbn [andb] in Hsend;
        [| discriminate Hsend].
      destruct (Z.eqb_spec (u8 sw2) 0) as [H2 | H2]; cbn [andb] in Hsend;
        [| discriminate Hsend].
      destruct (Z.eqb_spec (u8 sw1) 144) as [H1 | H1]; cbn [andb] in Hsend;
        [| discriminate Hsend].
      injection Hsend as <- <-.
      destruct body as [| first mid]; [cbn [hd] in H0; lia |].
      cbn [hd tl app] in *.
      rewrite <- (to_u8_u8 first), <- (to_u8_u8 sw1), <- (to_u8_u8 sw2), H0, H1, H2.
      repeat split; reflexivity.
  - intros -> -> payload ->.
    change (to_u8 0 :: payload ++ bytes [144; 0])
      with ((to_u8 0 :: payload) ++ [to_u8 144; to_u8 0]) in Hr.
    rewrite (sendAPDU_checks _ _ _ _ _ _ _ _ Hw Hr). reflexivity.
Qed.

End Exchange.

Lemma sendAPDU_outcomes_witness :
  sendAPDU scripted scripted_write scripted_read 0x40
    {| script := [plain_record_reply]; sent := [] |}
    (bytes [0x00; 0xB2; 0x01; 0x0C; 0x00]) []
  = Ok ({| script := []; sent := [read_record_frame 0x01 0x0C] |}, true,
        bytes [0x70; 0x03; 0x8F; 0x01; 0x05]).
Proof.
  apply (sendAPDU_outcomes scripted scripted_write scripted_read 0x40
           {| script := [plain_record_reply]; sent := [] |}
           {| script := [plain_record_reply]; sent := [read_record_frame 0x01 0x0C] |}
           {| script := []; sent := [read_record_frame 0x01 0x0C] |}
           (bytes [0x00; 0xB2; 0x01; 0x0C; 0x00]) [] (answer plain_record_reply)
           true true).
  - vm_compute. reflexivity.
  - vm_compute. reflexivity.
  - reflexivity.
  - reflexivity.
  - vm_compute. reflexivity.
Defined.

(** C9 is violated by the code: a response that is empty, or that is the
    single byte 0x00, does not end in 0x90 0x00, yet [sendAPDU] does not
    report failure on it. There is no check of the size of the response:
    after a write and a read that succeed it indexes the response out of
    range ([response[0]] on the empty response, [response[size() - 2]] on
    the single zero byte). *)
Theorem sendAPDU_short_response (T : Type)
    (write_command_ : T -> list byte -> T * bool)
    (read_response : T -> Z -> list byte -> T * bool * list byte)
    (PN532_COMMAND_INDATAEXCHANGE : Z)
    (st st1 st2 : T) (apdu response raw : list byte) :
  write_command_ st ([to_u8 PN532_COMMAND_INDATAEXCHANGE; to_u8 0x01] ++ apdu)
  = (st1, true) ->
  read_response st1 PN532_COMMAND_INDATAEXCHANGE response = (st2, true, raw) ->
  raw = [] \/ raw = [to_u8 0x00] ->
  sendAPDU T write_command_ read_response PN532_COMMAND_INDATAEXCHANGE st apdu response
  = OutOfRange.
Proof.
  intros Hw Hr Hraw. unfold sendAPDU. rewrite Hw. cbn [negb]. rewrite Hr. cbn [negb].
  destruct Hraw as [-> | ->].
  - reflexivity.
  - change (at_ [to_u8 0] 0) with (Ok 0). cbn [bind].
    change (0 =? 0) with true. cbn [negb].
    change (at_ [to_u8 0] (size [to_u8 0] - 1)) with (Ok 0). cbn [bind].
    change (0 =? 0) with true. cbn [negb].
    reflexivity.
Qed.

Lemma sendAPDU_short_response_witness :
  sendAPDU scripted scripted_write scripted_read 0x40
    {| script := [{| write_ok := true; read_ok := true; answer := bytes [0x00] |}];
       sent := [] |}
    (bytes [0x00; 0xB2; 0x01; 0x0C; 0x00]) []
  = OutOfRange.
Proof.
  apply (sendAPDU_short_response scripted scripted_write scripted_read 0x40
           {| script := [{| write_ok := true; read_ok := true; answer := bytes [0x00] |}];
              sent := [] |}
           {| script := [{| write_ok := true; read_ok := true; answer := bytes [0x00] |}];
              sent := [read_record_frame 0x01 0x0C] |}
           {| script := []; sent := [read_record_frame 0x01 0x0C] |}
           (bytes [0x00; 0xB2; 0x01; 0x0C; 0x00]) [] (bytes [0x00])).
  - vm_compute. reflexivity.
  - vm_compute. reflexivity.
  - right. reflexivity.
Defined.

Section Orchestrator.

Variable T : Type.
Variable write_command_ : T -> list byte -> T * bool.
Variable read_response : T -> Z -> list byte -> T * bool * list byte.
Variable PN532_COMMAND_INDATAEXCHANGE : Z.
Variable EMV_TAG_AID : Z.
Variable EMV_TAG_PDOL : Z.
Variable EMV_TAG_COMMAND : Z.
Variable EMV_TAG_TRACK2 : Z.
Variable EMV_TAG_TRACK1 : Z.
Variable EMV_TAG_PAN : Z.

(** Case analysis along a computation that is known to return. *)
Ltac unbind H :=
  repeat match type of H with
         | bind ?m _ = _ => destruct m as [? | |]; cbn [bind] in H; try discriminate H
         | match ?x with _ => _ end = _ => destruct x
         end.

Lemma read_records_flow (fuel : nat) :
  forall (st st' : T) (sfi start end_ : Z) (response response' : list byte) (fl : flow),
    read_records T write_command_ read_response PN532_COMMAND_INDATAEXCHANGE
      EMV_TAG_TRACK2 EMV_TAG_TRACK1 EMV_TAG_PAN fuel st sfi start end_ response
    = Ok (st', response', fl) ->
    fl = Continue \/ fl = Return false.
Proof.
  induction fuel as [| fuel IH]; intros st st' sfi start end_ response response' fl H;
    [discriminate H |].
  cbn [read_records] in H. unbind H;
    first [ injection H as _ _ <-; auto | eapply IH; exact H ].
Qed.

Lemma scan_afl_flow (fuel : nat) :
  forall (st st' : T) (afl : list byte) (pos : Z) (response response' : list byte)
         (fl : flow),
    scan_afl T write_command_ read_response PN532_COMMAND_INDATAEXCHANGE
      EMV_TAG_TRACK2 EMV_TAG_TRACK1 EMV_TAG_PAN fuel st afl pos response
    = Ok (st', response', fl) ->
    fl = Continue \/ fl = Return false.
Proof.
  induction fuel as [| fuel IH]; intros st st' afl pos response response' fl H;
    [discriminate H |].
  cbn [scan_afl] in H.
  destruct (pos <? size afl - 4); [| injection H as _ _ <-; auto].
  do 4 (match type of H with
        | bind ?m _ = _ => destruct m as [? | |]; cbn [bind] in H; try discriminate H
        end).
  match type of H with
  | bind ?m _ = _ => destruct m as [[[st1 response1] fl1] | |] eqn:E; cbn [bind] in H;
                     try discriminate H
  end.
  apply read_records_flow in E.
  destruct fl1 as [| ret].
  - eapply IH. exact H.
  - injection H as _ _ <-. destruct E as [E | E]; [discriminate E | auto].
Qed.

(** No path through the orchestrator returns [true] or writes the caller's
    [data]: whatever the card answers, a read that returns reports failure. *)
Lemma read_mifare_plus_bytes_reports_failure (fuel : nat) (st st' : T)
    (start_page num_bytes : Z) (data data' : list byte) (ok : bool) :
  read_mifare_plus_bytes_ T write_command_ read_response PN532_COMMAND_INDATAEXCHANGE
    EMV_TAG_AID EMV_TAG_PDOL EMV_TAG_COMMAND EMV_TAG_TRACK2 EMV_TAG_TRACK1 EMV_TAG_PAN
    fuel st start_page num_bytes data
  = Ok (st', ok, data') ->
  ok = false /\ data' = data.
Proof.
  unfold read_mifare_plus_bytes_. intros H.
  repeat match type of H with
         | bind (scan_afl _ _ _ _ _ _ _ _ _ _ _ _) _ = _ => fail 1
         | bind ?m _ = _ => destruct m as [? | |]; cbn [bind] in H; try discriminate H
         | match ?x with _ => _ end = _ => destruct x
         end;
    try (injection H as _ <- <-; split; reflexivity).
  match type of H with
  | bind ?m _ = _ => destruct m as [[[st1 response1] fl1] | |] eqn:E; cbn [bind] in H;
                     try discriminate H
  end.
  apply scan_afl_flow in E.
  destruct fl1 as [| ret]; injection H as _ <- <-; [split; reflexivity |].
  destruct E as [E | E]; [discriminate E | injection E as ->; split; reflexivity].
Qed.

(** The loop over the AFL stops in front of the last entry: with one entry
    it does nothing at all. *)
Lemma scan_afl_single_entry (fuel : nat) (st : T) (afl response : list byte) :
  size afl = 4 ->
  scan_afl T write_command_ read_response PN532_COMMAND_INDATAEXCHANGE
    EMV_TAG_TRACK2 EMV_TAG_TRACK1 EMV_TAG_PAN (S fuel) st afl 0 response
  = Ok (st, response, Continue).
Proof. intros Hsize. cbn [scan_afl]. rewrite Hsize. reflexivity. Qed.

End Orchestrator.

(** ** The read orchestrator *)

(** C1 is violated by the code: GPO is answered with Track 2 data, the three
    commands SELECT PPSE, SELECT AID and GPO are the only ones sent (no READ
    RECORD), the Track 2 data parses to the sample PAN, and the read reports
    failure and leaves the caller's data as it was. *)
Theorem read_gpo_track2_reports_failure :
  emv_read 8 {| script := [ppse_reply; aid_reply; gpo_track2_reply]; sent := [] |} []
  = Ok ({| script := []; sent := [select_ppse_frame; select_aid_frame; gpo_frame] |},
        false, [])
  /\ findTag (slice (answer gpo_track2_reply) 1 (size (answer gpo_track2_reply) - 2)) 0x57
     = Ok track2_sample
  /\ parse_track2 10 track2_sample = Ok pan_sample.
Proof. split; [| split]; vm_compute; reflexivity. Qed.

(** C2 is violated by the code: with an AFL of two entries only the records
    of the first entry are read; the READ RECORD commands for file 2 are
    never sent, the record that holds the PAN is never asked for, and the
    read fails. *)
Theorem read_afl_skips_last_entry :
  emv_read 8 {| script := [ppse_reply; aid_reply; gpo_afl_reply;
                           plain_record_reply; pan_record_reply; plain_record_reply];
                sent := [] |} []
  = Ok ({| script := [pan_record_reply; plain_record_reply];
           sent := [select_ppse_frame; select_aid_frame; gpo_frame;
                    read_record_frame 0x01 0x0C] |},
        false, []).
Proof. vm_compute. reflexivity. Qed.

(** ** parseTags and the lifetime of what its map points to *)

Lemma is_live_app_old (h : storage) (b : block) (q : nat) :
  (q < length h)%nat -> is_live (h ++ [b]) q = is_live h q.
Proof. intros Hq. unfold is_live. rewrite nth_error_app1 by exact Hq. reflexivity. Qed.

Lemma release_length (h : storage) : forall p, length (release h p) = length h.
Proof.
  induction h as [| b h IH]; intros p; [reflexivity |].
  destruct p; cbn [release length]; [reflexivity | rewrite IH; reflexivity].
Qed.

Lemma release_dead (h : storage) : forall p, is_live (release h p) p = false.
Proof.
  induction h as [| b h IH]; intros p; [destruct p; reflexivity |].
  destruct p; cbn [release]; [reflexivity | exact (IH p)].
Qed.

Lemma release_other (h : storage) :
  forall p q, q <> p -> is_live (release h p) q = is_live h q.
Proof.
  induction h as [| b h IH]; intros p q Hq; [destruct p; reflexivity |].
  destruct p, q; cbn [release]; try reflexivity; [lia |].
  unfold is_live in *. cbn [nth_error]. apply IH. lia.
Qed.

Lemma is_live_beyond (h : storage) (q : nat) :
  (length h <= q)%nat -> is_live h q = false.
Proof.
  intros Hq. unfold is_live.
  destruct (nth_error h q) eqn:E; [| reflexivity].
  assert (nth_error h q <> None) as N by congruence.
  apply nth_error_Some in N. lia.
Qed.

Lemma scoped_refl (h : storage) : scoped h h.
Proof.
  split; [lia |]. split; [reflexivity |]. apply is_live_beyond.
Qed.

Lemma scoped_trans (h1 h2 h3 : storage) : scoped h1 h2 -> scoped h2 h3 -> scoped h1 h3.
Proof.
  intros [L12 [O12 N12]] [L23 [O23 N23]].
  split; [lia |]. split.
  - intros q Hq. rewrite O23 by lia. apply O12. exact Hq.
  - intros q Hq. destruct (Nat.lt_ge_cases q (length h2)) as [Hlt | Hge].
    + rewrite O23 by exact Hlt. apply N12. exact Hq.
    + apply N23. exact Hge.
Qed.

(** A local vector: created, used by a call that cleans up after itself,
    destroyed at the end of the scope. *)
Lemma scoped_local (h h2 : storage) (v : list byte) :
  scoped (fst (alloc h v)) h2 -> scoped h (release h2 (snd (alloc h v))).
Proof.
  cbn [alloc fst snd]. intros [L [O N]]. rewrite length_app in *. cbn [length] in *.
  split; [rewrite release_length; lia |]. split.
  - intros q Hq. rewrite release_other by lia. rewrite O by lia.
    apply is_live_app_old. exact Hq.
  - intros q Hq. destruct (Nat.eq_dec q (length h)) as [-> | Hne].
    + apply release_dead.
    + rewrite release_other by exact Hne. apply N. lia.
Qed.

Lemma entries_from_refl (n : nat) (m : tag_map) : entries_from n m m.
Proof. intros tag p H. left. exact H. Qed.

Lemma entries_from_trans (n1 n2 : nat) (m1 m2 m3 : tag_map) :
  (n1 <= n2)%nat ->
  entries_from n1 m1 m2 -> entries_from n2 m2 m3 -> entries_from n1 m1 m3.
Proof.
  intros Hn H12 H23 tag p H. destruct (H23 tag p H) as [H2 | H2].
  - exact (H12 tag p H2).
  - right. lia.
Qed.

Lemma map_find_app (m1 m2 : tag_map) (tag : Z) :
  map_find (m1 ++ m2) tag
  = match map_find m1 tag with Some p => Some p | None => map_find m2 tag end.
Proof.
  induction m1 as [| [k p] m1 IH]; cbn [map_find app]; [reflexivity |].
  destruct (k =? tag); [reflexivity | exact IH].
Qed.

Lemma entries_from_insert (m : tag_map) (tag : Z) (p : ptr) :
  entries_from p m (map_insert m tag p).
Proof.
  intros k q. unfold map_insert.
  destruct (map_find m tag) eqn:E; [intros H; left; exact H |].
  rewrite map_find_app. destruct (map_find m k); [intros H; left; exact H |].
  cbn [map_find]. destruct (tag =? k); [| discriminate].
  intros H; injection H as <-. right. lia.
Qed.

Lemma parseTags_node_scoped
    (rec : storage -> list byte -> tag_map -> outcome (storage * tag_map))
    (h h' : storage) (ber_data : list byte) (m m' : tag_map) (tag len hl : Z) :
  (forall h0 h1 v m0 m1,
      rec h0 v m0 = Ok (h1, m1) -> scoped h0 h1 /\ entries_from (length h0) m0 m1) ->
  parseTags_node rec h ber_data m tag len hl = Ok (h', m') ->
  scoped h h' /\ entries_from (length h) m m'.
Proof.
  intros Hrec H. unfold parseTags_node in H.
  set (remaining := slice ber_data (hl + len) (size ber_data)) in *.
  set (value := slice ber_data hl (hl + len)) in *.
  (* the scope of remainingData *)
  assert (exists h1 m1,
            scoped h h1 /\ entries_from (length h) m m1
            /\ (if size ber_data >=? len + hl
                then
                  let '(h2, v) := alloc h1 value in
                  ' (h3, m3) <-
                    (if (tag =? 0x6F) || (tag =? 0xA5) || (tag =? 0xBF0C) || (tag =? 0x61)
                     then rec h2 value (map_insert m1 tag v)
                     else Ok (h2, map_insert m1 tag v)) ;;
                  Ok (release h3 v, m3)
                else Ok (h1, m1)) = Ok (h', m')) as [h1 [m1 [S1 [F1 H1]]]].
  { destruct (size ber_data >? len + hl).
    - cbn [alloc] in H.
      destruct (rec (h ++ [{| contents := remaining; live := true |}]) remaining m)
        as [[h1 m1] | |] eqn:E; cbn [bind] in H; try discriminate H.
      apply Hrec in E. destruct E as [S1 F1].
      exists (release h1 (length h)), m1. split; [| split; [| exact H]].
      + exact (scoped_local h h1 remaining S1).
      + eapply entries_from_trans; [| apply entries_from_refl | exact F1].
        rewrite length_app. lia.
    - cbn [bind] in H. exists h, m.
      split; [apply scoped_refl | split; [apply entries_from_refl | exact H]]. }
  clear H.
  (* the scope of tagValue *)
  destruct (size ber_data >=? len + hl).
  - cbn [alloc] in H1.
    assert (exists h3 m3,
              scoped (h1 ++ [{| contents := value; live := true |}]) h3
              /\ entries_from (length h1) m1 m3
              /\ h' = release h3 (length h1) /\ m' = m3) as [h3 [m3 [S3 [F3 [-> ->]]]]].
    { destruct ((tag =? 0x6F) || (tag =? 0xA5) || (tag =? 0xBF0C) || (tag =? 0x61)).
      - destruct (rec (h1 ++ [{| contents := value; live := true |}]) value
                    (map_insert m1 tag (length h1))) as [[h3 m3] | |] eqn:E;
          cbn [bind] in H1; try discriminate H1.
        injection H1 as <- <-. apply Hrec in E. destruct E as [S3 F3].
        exists h3, m3. split; [exact S3 | split; [| split; reflexivity]].
        eapply entries_from_trans; [| apply entries_from_insert | exact F3].
        rewrite length_app. lia.
      - cbn [bind] in H1. injection H1 as <- <-.
        exists (h1 ++ [{| contents := value; live := true |}]), (map_insert m1 tag (length h1)).
        split; [apply scoped_refl | split; [apply entries_from_insert | split; reflexivity]]. }
    split.
    + eapply scoped_trans; [exact S1 |]. exact (scoped_local h1 h3 value S3).
    + eapply entries_from_trans; [| exact F1 | exact F3]. destruct S1 as [L _]. exact L.
  - injection H1 as <- <-. split; [exact S1 | exact F1].
Qed.

Lemma parseTags_scoped (fuel : nat) :
  forall (h h' : storage) (ber_data : list byte) (m m' : tag_map),
    parseTags fuel h ber_data m = Ok (h', m') ->
    scoped h h' /\ entries_from (length h) m m'.
Proof.
  induction fuel as [| fuel IH]; intros h h' ber_data m m' H; [discriminate H |].
  cbn [parseTags] in H.
  destruct (at_ ber_data 0) as [t | |]; cbn [bind] in H; try discriminate H.
  destruct (Z.land t 31 =? 31); cbn [bind] in H.
  - destruct (at_ ber_data 1) as [b | |]; cbn [bind] in H; try discriminate H.
    destruct (at_ ber_data 2) as [len | |]; cbn [bind] in H; try discriminate H.
    exact (parseTags_node_scoped (parseTags fuel) _ _ _ _ _ _ _ _ IH H).
  - destruct (at_ ber_data 1) as [len | |]; cbn [bind] in H; try discriminate H.
    exact (parseTags_node_scoped (parseTags fuel) _ _ _ _ _ _ _ _ IH H).
Qed.

(** C8 is violated by the code: whenever [parseTags] returns, every entry it
    has added to the map points to a block that is no longer live, the local
    [tagValue] vector whose scope has ended. *)
Theorem parseTags_entries_dangle (fuel : nat) (h h' : storage) (ber_data : list byte)
    (tagMap tagMap' : tag_map) (tag : Z) (p : ptr) :
  parseTags fuel h ber_data tagMap = Ok (h', tagMap') ->
  map_find tagMap' tag = Some p ->
  map_find tagMap tag = Some p \/ is_live h' p = false.
Proof.
  intros H Hp. apply parseTags_scoped in H. destruct H as [[_ [_ Hnew]] Hentries].
  destruct (Hentries tag p Hp) as [Hold | Hfresh]; [left; exact Hold | right].
  apply Hnew. exact Hfresh.
Qed.

Lemma parseTags_entries_dangle_witness :
  map_find [] 0x5A = Some 0%nat
  \/ is_live [{| contents := bytes [0x12; 0x34]; live := false |}] 0%nat = false.
Proof.
  apply (parseTags_entries_dangle 2 [] _ pan_node_sample [] [(0x5A, 0%nat)] 0x5A 0%nat).
  - vm_compute. reflexivity.
  - vm_compute. reflexivity.
Defined.

(** ** Sample values of the design description *)

Example findTag_fci_aid :
  findTag fci_sample 0x84 = Ok (bytes [0xA0; 0x00; 0x00; 0x00; 0x03; 0x10; 0x10]).
Proof. vm_compute. reflexivity. Qed.

Example findTag_fci_sfi : findTag fci_sample 0x88 = Ok (bytes [0x02]).
Proof. vm_compute. reflexivity. Qed.

Example constructPdolData_country_code :
  constructPdolData (bytes [0x9F; 0x1A; 0x02]) = Ok (bytes [0x02; 0x76], []).
Proof. vm_compute. reflexivity. Qed.

Example constructPdolData_unknown_tag :
  constructPdolData (bytes [0x9F; 0x7C; 0x03]) = Ok (bytes [0x00; 0x00; 0x00], []).
Proof. vm_compute. reflexivity. Qed.

Example parse_track2_without_separator :
  parse_track2 20 (bytes [0x12; 0x34; 0x56; 0x78; 0x90; 0x12; 0x34; 0x56; 0x78; 0x90; 0x12])
  = Ok [].
Proof. vm_compute. reflexivity. Qed.

Example parse_track1_without_format_code :
  parse_track1 20 (ascii "A4400664987366029^") = Ok [].
Proof. vm_compute. reflexivity. Qed.

Example parse_track1_with_letter :
  parse_track1 20 (ascii "B44006X4987366029^") = Ok [].
Proof. vm_compute. reflexivity. Qed.

(** * Further properties of the code *)

(** ** findTag: what it returns *)

Lemma slice_infix (v : list byte) (from to : Z) :
  exists pre post, v = pre ++ slice v from to ++ post.
Proof.
  unfold slice.
  exists (firstn (Z.to_nat from) v),
         (skipn (Z.to_nat (to - from)) (skipn (Z.to_nat from) v)).
  rewrite (firstn_skipn (Z.to_nat (to - from))). symmetry. apply firstn_skipn.
Qed.

Lemma findTag_infix (target : Z) (n : nat) :
  forall (buf r : list byte),
    length buf = n -> findTag buf target = Ok r ->
    exists pre post, buf = pre ++ r ++ post.
Proof.
  induction n as [n IH] using lt_wf_ind. intros buf r Hn Hfind.
  rewrite findTag_unfold in Hfind. unfold findTag_body in Hfind.
  destruct (Z.ltb_spec (size buf) 3) as [| Hsize];
    [injection Hfind as <-; exists [], buf; reflexivity |].
  destruct (tlv_header buf) as [[[tag len] hl] | |] eqn:Hh; cbn [bind] in Hfind;
    try discriminate Hfind.
  pose proof (tlv_header_bounds _ _ _ _ Hh) as [Hhl [Hlen Hle]].
  assert (forall from to v, 2 <= from -> to <= size buf ->
            findTag (slice buf from to) target = Ok v ->
            exists pre post, buf = pre ++ v ++ post) as Hrec.
  { intros from to v Hfrom Hto Hv.
    destruct (IH (length (slice buf from to))) with (buf := slice buf from to) (r := v)
      as [p1 [q1 E1]]; [| reflexivity | exact Hv |].
    - pose proof (slice_length buf from to). unfold size in *. lia.
    - destruct (slice_infix buf from to) as [p2 [q2 E2]].
      exists (p2 ++ p1), (q1 ++ q2). rewrite E2 at 1. rewrite E1.
      rewrite <- !app_assoc. reflexivity. }
  assert ((if size buf >? len + hl
           then findTag (slice buf (hl + len) (size buf)) target
           else Ok []) = Ok r -> exists pre post, buf = pre ++ r ++ post) as Hsiblings.
  { destruct (size buf >? len + hl); intros E.
    - eapply Hrec; [| | exact E]; lia.
    - injection E as <-. exists [], buf. reflexivity. }
  destruct (Z.geb_spec (size buf) (len + hl)) as [Hfit | Hover]; cbn [bind] in Hfind;
    [| exact (Hsiblings Hfind)].
  destruct (tag =? target); cbn [bind] in Hfind;
    [injection Hfind as <-; apply slice_infix |].
  destruct (is_template tag); cbn [bind] in Hfind; [| exact (Hsiblings Hfind)].
  destruct (findTag (slice buf hl (hl + len)) target) as [[| x inner] | |] eqn:Hinner;
    cbn [bind negb is_empty] in Hfind; try discriminate Hfind.
  - exact (Hsiblings Hfind).
  - injection Hfind as <-. eapply Hrec; [| | exact Hinner]; lia.
Qed.

(** X1: whatever [findTag] returns is a contiguous part of the buffer it
    was given, of at most 255 bytes. *)
Theorem findTag_returns_part_of_buffer (buf r : list byte) (target : Z) :
  findTag buf target = Ok r ->
  size r <= 255 /\ exists pre post, buf = pre ++ r ++ post.
Proof.
  intros H. split.
  - exact (findTag_value_short target (length buf) buf r eq_refl H).
  - exact (findTag_infix target (length buf) buf r eq_refl H).
Qed.

Lemma findTag_returns_part_of_buffer_witness :
  size (bytes [0x02]) <= 255
  /\ exists pre post, fci_sample = pre ++ bytes [0x02] ++ post.
Proof.
  apply (findTag_returns_part_of_buffer fci_sample (bytes [0x02]) 0x88).
  vm_compute. reflexivity.
Defined.

Lemma tlv_header_out_of_range (buf : list byte) :
  3 <= size buf ->
  tlv_header buf = OutOfRange ->
  exists t b l, buf = [t; b; l] /\ Z.land (u8 t) 0x1F = 0x1F /\ Z.land (u8 l) 0x80 <> 0.
Proof.
  intros Hsize. rewrite tlv_header_decode by exact Hsize.
  destruct buf as [| b0 [| b1 [| b2 rest]]];
    try (rewrite ?size_cons, size_nil in Hsize; lia).
  cbn [decode_tag].
  destruct (Z.eqb_spec (Z.land (u8 b0) 31) 31) as [Ht | Ht].
  - cbn [decode_length]. rewrite testbit7_land.
    destruct (Z.eqb_spec (Z.land (u8 b2) 128) 0) as [Hl | Hl]; cbn [negb];
      [discriminate |].
    destruct rest; [| discriminate].
    intros _. exists b0, b1, b2. repeat split; assumption.
  - cbn [decode_length]. destruct (Z.testbit (u8 b1) 7); discriminate.
Qed.

Lemma findTag_out_of_range_window (target : Z) (n : nat) :
  forall (buf : list byte),
    length buf = n -> findTag buf target = OutOfRange ->
    exists pre t b l post,
      buf = pre ++ [t; b; l] ++ post
      /\ Z.land (u8 t) 0x1F = 0x1F /\ Z.land (u8 l) 0x80 <> 0.
Proof.
  induction n as [n IH] using lt_wf_ind. intros buf Hn Hfind.
  rewrite findTag_unfold in Hfind. unfold findTag_body in Hfind.
  destruct (Z.ltb_spec (size buf) 3) as [| Hsize]; [discriminate Hfind |].
  destruct (tlv_header buf) as [[[tag len] hl] | |] eqn:Hh; cbn [bind] in Hfind;
    try discriminate Hfind.
  - pose proof (tlv_header_bounds _ _ _ _ Hh) as [Hhl [Hlen Hle]].
    assert (forall from to, 2 <= from -> to <= size buf ->
              findTag (slice buf from to) target = OutOfRange ->
              exists pre t b l post,
                buf = pre ++ [t; b; l] ++ post
                /\ Z.land (u8 t) 0x1F = 0x1F /\ Z.land (u8 l) 0x80 <> 0) as Hrec.
    { intros from to Hfrom Hto Hv.
      destruct (IH (length (slice buf from to))) with (buf := slice buf from to)
        as [p1 [t [b [l [q1 [E1 [Ht Hl]]]]]]]; [| reflexivity | exact Hv |].
      - pose proof (slice_length buf from to). unfold size in *. lia.
      - destruct (slice_infix buf from to) as [p2 [q2 E2]].
        exists (p2 ++ p1), t, b, l, (q1 ++ q2). split; [| split; assumption].
        rewrite E2 at 1. rewrite E1. rewrite <- !app_assoc. reflexivity. }
    assert ((if size buf >? len + hl
             then findTag (slice buf (hl + len) (size buf)) target
             else Ok []) = OutOfRange ->
            exists pre t b l post,
              buf = pre ++ [t; b; l] ++ post
              /\ Z.land (u8 t) 0x1F = 0x1F /\ Z.land (u8 l) 0x80 <> 0) as Hsiblings.
    { destruct (size buf >? len + hl); intros E; [| discriminate E].
      apply (Hrec (hl + len) (size buf)); [lia | lia | exact E]. }
    destruct (Z.geb_spec (size buf) (len + hl)) as [Hfit | Hover]; cbn [bind] in Hfind;
      [| exact (Hsiblings Hfind)].
    destruct (tag =? target); cbn [bind] in Hfind; [discriminate Hfind |].
    destruct (is_template tag); cbn [bind] in Hfind; [| exact (Hsiblings Hfind)].
    destruct (findTag (slice buf hl (hl + len)) target) as [[| x inner] | |] eqn:Hinner;
      cbn [bind negb is_empty] in Hfind; try discriminate Hfind.
    + exact (Hsiblings Hfind).
    + apply (Hrec hl (hl + len)); [lia | lia | exact Hinner].
  - destruct (tlv_header_out_of_range buf Hsize Hh) as [t [b [l [E [Ht Hl]]]]].
    exists [], t, b, l, []. split; [rewrite E; reflexivity | split; assumption].
Qed.

(** X2: [findTag] reads outside its buffer only where the buffer holds,
    somewhere, the first byte of a two-byte tag, one more byte, and a
    long-form length byte; a buffer without such three bytes in a row is
    searched without any read out of range. *)
Theorem findTag_out_of_range_only_at_cut_header (buf : list byte) (target : Z) :
  findTag buf target = OutOfRange ->
  exists pre t b l post,
    buf = pre ++ [t; b; l] ++ post
    /\ Z.land (u8 t) 0x1F = 0x1F /\ Z.land (u8 l) 0x80 <> 0.
Proof.
  intros H. exact (findTag_out_of_range_window target (length buf) buf eq_refl H).
Qed.

Lemma findTag_out_of_range_only_at_cut_header_witness :
  exists pre t b l post,
    bytes [0x70; 0x03; 0x9F; 0x38; 0x81] = pre ++ [t; b; l] ++ post
    /\ Z.land (u8 t) 0x1F = 0x1F /\ Z.land (u8 l) 0x80 <> 0.
Proof.
  apply (findTag_out_of_range_only_at_cut_header
           (bytes [0x70; 0x03; 0x9F; 0x38; 0x81]) 0x5A).
  vm_compute. reflexivity.
Defined.

(** ** The track parsers: what a result looks like *)

Lemma before_all_differ (x : Z) (l : list Z) : Forall (fun y => y <> x) (before x l).
Proof.
  induction l as [| y l IH]; cbn [before]; [constructor |].
  destruct (Z.eqb_spec y x); constructor; assumption.
Qed.

Lemma before_sublist (P : Z -> Prop) (x : Z) (l : list Z) :
  Forall P l -> Forall P (before x l).
Proof.
  induction 1 as [| y l Hy Hl IH]; cbn [before]; [constructor |].
  destruct (y =? x); constructor; assumption.
Qed.

Lemma nibbles_range (data : list byte) : Forall (fun d => 0 <= d < 16) (nibbles data).
Proof.
  induction data as [| b data IH]; [constructor |].
  unfold nibbles in *. cbn [flat_map app]. pose proof (u8_range b) as R.
  constructor; [| constructor; [| exact IH]].
  - rewrite Z.shiftr_div_pow2 by lia. change (2 ^ 4) with 16.
    split; [apply Z.div_pos; lia | apply Z.div_lt_upper_bound; lia].
  - change 15 with (Z.ones 4). rewrite Z.land_ones by lia.
    apply Z.mod_pos_bound. reflexivity.
Qed.

(** X4: on a buffer of at most 255 bytes [parse_nibbles] returns, and a
    non-empty result has between 6 and 21 entries, each a nibble (0 to 15,
    not only decimal digits) other than the terminator. *)
Theorem parse_nibbles_result_bounds (fuel : nat) (data : list byte) (terminator : byte) :
  (length data < fuel)%nat ->
  size data <= 255 ->
  exists r,
    parse_nibbles fuel data terminator = Ok r
    /\ (r = []
        \/ (6 <= size r <= 21
            /\ Forall (fun d => 0 <= u8 d < 16 /\ u8 d <> u8 terminator) r)).
Proof.
  intros Hfuel Hlen. unfold parse_nibbles.
  pose proof (parse_nibbles_loop_scan (u8 terminator) data fuel [] [] Hfuel Hlen) as L.
  cbn [app] in L. rewrite size_nil, Z.add_0_l in L. rewrite L. cbn [bind].
  set (digits := before (u8 terminator) (nibbles data)).
  assert (Forall (fun d => 0 <= d < 16 /\ d <> u8 terminator) digits) as Hd.
  { apply Forall_and.
    - apply before_sublist. apply nibbles_range.
    - apply before_all_differ. }
  unfold bytes_consumed.
  pose proof (Z.div_mod (size digits) 2 ltac:(lia)) as Hdiv.
  pose proof (Z.mod_pos_bound (size digits) 2 ltac:(lia)) as Hmod.
  destruct (Z.gtb_spec (size digits / 2) 10), (Z.ltb_spec (size digits / 2) 3);
    cbn [orb]; eexists; (split; [reflexivity |]); try (left; reflexivity).
  right. rewrite size_map. split; [lia |].
  apply Forall_map. revert Hd. apply Forall_impl.
  intros d [Hr Hne]. rewrite u8_to_u8 by lia. split; assumption.
Qed.

Lemma parse_nibbles_result_bounds_witness :
  exists r,
    parse_nibbles 10 track2_sample (to_u8 0x0D) = Ok r
    /\ (r = []
        \/ (6 <= size r <= 21
            /\ Forall (fun d => 0 <= u8 d < 16 /\ u8 d <> u8 (to_u8 0x0D)) r)).
Proof.
  apply (parse_nibbles_result_bounds 10 track2_sample (to_u8 0x0D)).
  - vm_compute. lia.
  - vm_compute. discriminate.
Defined.

Lemma existsb_false_forall (P : Z -> bool) (l : list Z) :
  existsb P l = false -> Forall (fun c => P c = false) l.
Proof.
  induction l as [| c l IH]; cbn [existsb]; intros H; [constructor |].
  apply orb_false_elim in H. destruct H as [Hc Hl].
  constructor; [exact Hc | exact (IH Hl)].
Qed.

(** X5: [parse_track1] always returns, and its result has at most 19
    entries, each a decimal digit value 0 to 9. *)
Theorem parse_track1_result_bounds (fuel : nat) (data : list byte) :
  (length data < fuel)%nat ->
  exists r,
    parse_track1 fuel data = Ok r
    /\ size r <= 19 /\ Forall (fun d => 0 <= u8 d <= 9) r.
Proof.
  intros Hfuel. rewrite (parse_track1_described fuel data Hfuel).
  eexists. split; [reflexivity |].
  unfold track1_described.
  destruct (track1_rejected 19 data) eqn:Hrej;
    [rewrite size_nil; split; [lia | constructor] |].
  destruct data as [| b rest]; [discriminate Hrej |].
  cbn [track1_rejected] in Hrej.
  apply orb_false_elim in Hrej. destruct Hrej as [Hrej Hlong].
  apply orb_false_elim in Hrej. destruct Hrej as [Hrej _].
  apply orb_false_elim in Hrej. destruct Hrej as [_ Hdigits].
  unfold track1_digits. rewrite size_map. split.
  - destruct (Z.gtb_spec (size (track1_field (b :: rest))) 19); [discriminate | lia].
  - apply Forall_map. apply existsb_false_forall in Hdigits.
    revert Hdigits. apply Forall_impl. intros c Hc.
    apply negb_false_iff in Hc. unfold is_digit, chr_0, chr_9 in *.
    apply andb_prop in Hc. destruct Hc as [H0 H9].
    apply Z.leb_le in H0, H9. rewrite u8_to_u8 by lia. lia.
Qed.

Lemma parse_track1_result_bounds_witness :
  exists r,
    parse_track1 20 (ascii "B4400664987366029^") = Ok r
    /\ size r <= 19 /\ Forall (fun d => 0 <= u8 d <= 9) r.
Proof.
  apply (parse_track1_result_bounds 20 (ascii "B4400664987366029^")).
  vm_compute. lia.
Defined.

(** ** constructPdolData: requests and what is synthesised for them *)

Lemma short_header_encoded (hdr rest : list byte) (tag : Z) (l : byte) :
  encodes_tag hdr tag ->
  short_header (hdr ++ l :: rest) = Ok (tag, u8 l, size hdr + 1).
Proof.
  intros [[t [-> [Ht ->]]] | [t [b [-> [Ht ->]]]]]; unfold short_header; cbn [app].
  - change (at_ (t :: l :: rest) 0) with (Ok (u8 t)). cbn [bind].
    destruct (Z.eqb_spec (Z.land (u8 t) 31) 31); [contradiction |]. cbn [bind].
    reflexivity.
  - change (at_ (t :: b :: l :: rest) 0) with (Ok (u8 t)). cbn [bind].
    rewrite Ht, Z.eqb_refl. reflexivity.
Qed.

Lemma encodes_tag_size (hdr : list byte) (tag : Z) :
  encodes_tag hdr tag -> 1 <= size hdr <= 2.
Proof.
  intros [[t [-> _]] | [t [b [-> _]]]]; rewrite ?size_cons, size_nil; lia.
Qed.

Lemma constructPdolData_loop_header (fuel : nat) (pdol result : list byte) :
  constructPdolData_loop (S fuel) pdol result
  = if size pdol >? 1 then
      '(tag, len, headerLen) <- short_header pdol ;;
      constructPdolData_loop fuel (skipn (Z.to_nat headerLen) pdol)
        (result ++ pdol_value tag len)
    else Ok (result, pdol).
Proof.
  cbn [constructPdolData_loop]. unfold short_header.
  destruct (size pdol >? 1); [| reflexivity].
  destruct (at_ pdol 0) as [t | |]; cbn [bind]; try reflexivity.
  destruct (Z.land t 31 =? 31); cbn [bind].
  - destruct (at_ pdol 1) as [b | |]; cbn [bind]; try reflexivity.
    destruct (at_ pdol 2) as [l | |]; reflexivity.
  - destruct (at_ pdol 1) as [l | |]; reflexivity.
Qed.

Lemma short_header_bounds (buf : list byte) (tag len hl : Z) :
  short_header buf = Ok (tag, len, hl) ->
  2 <= hl <= 3 /\ 0 <= len <= 255 /\ hl <= size buf.
Proof.
  unfold short_header.
  next_read; try discriminate.
  destruct (Z.land z 31 =? 31); cbn [bind].
  - next_read; try discriminate. next_read; try discriminate.
    intros H; injection H as <- <- <-. lia.
  - next_read; try discriminate. intros H; injection H as <- <- <-. lia.
Qed.

Lemma constructPdolData_loop_fuel (n : nat) :
  forall (m : nat) (pdol result : list byte),
    (length pdol < n)%nat -> (length pdol < m)%nat ->
    constructPdolData_loop n pdol result = constructPdolData_loop m pdol result.
Proof.
  induction n as [| n IH]; intros m pdol result Hn Hm; [lia |].
  destruct m as [| m]; [lia |].
  rewrite !constructPdolData_loop_header.
  destruct (Z.gtb_spec (size pdol) 1) as [Hmore | _]; [| reflexivity].
  destruct (short_header pdol) as [[[tag len] hl] | |] eqn:Hh; cbn [bind];
    try reflexivity.
  apply short_header_bounds in Hh.
  apply IH; rewrite length_skipn; unfold size in *; lia.
Qed.

Lemma constructPdolData_loop_result (fuel : nat) :
  forall (pdol result : list byte),
    constructPdolData_loop fuel pdol result
    = ('(r, p) <- constructPdolData_loop fuel pdol [] ;; Ok (result ++ r, p)).
Proof.
  induction fuel as [| fuel IH]; intros pdol result; [reflexivity |].
  rewrite !constructPdolData_loop_header.
  destruct (size pdol >? 1); [| cbn [bind]; rewrite app_nil_r; reflexivity].
  destruct (short_header pdol) as [[[tag len] hl] | |]; cbn [bind]; try reflexivity.
  rewrite (IH _ (result ++ pdol_value tag len)), (IH _ ([] ++ pdol_value tag len)).
  destruct (constructPdolData_loop fuel _ []) as [[r p] | |]; cbn [bind app];
    try reflexivity.
  rewrite app_assoc. reflexivity.
Qed.

(** The first entry of a request, and the rest of the request. *)
Lemma constructPdolData_entry (hdr rest : list byte) (tag : Z) (l : byte) :
  encodes_tag hdr tag ->
  constructPdolData (hdr ++ l :: rest)
  = ('(r, p) <- constructPdolData rest ;; Ok (pdol_value tag (u8 l) ++ r, p)).
Proof.
  intros Hhdr. pose proof (encodes_tag_size _ _ Hhdr) as Hs.
  pose proof (size_nonneg rest) as Hrest.
  unfold constructPdolData at 1.
  destruct (Z.ltb_spec (size (hdr ++ l :: rest)) 2) as [H | _];
    [rewrite size_app, size_cons in H; lia |].
  rewrite constructPdolData_loop_header.
  destruct (Z.gtb_spec (size (hdr ++ l :: rest)) 1) as [_ | H];
    [| rewrite size_app, size_cons in H; lia].
  rewrite (short_header_encoded _ _ _ _ Hhdr). cbn [bind app].
  replace (skipn (Z.to_nat (size hdr + 1)) (hdr ++ l :: rest)) with rest.
  2: { replace (hdr ++ l :: rest) with ((hdr ++ [l]) ++ rest)
         by (rewrite <- app_assoc; reflexivity).
       replace (Z.to_nat (size hdr + 1)) with (length (hdr ++ [l]))
         by (rewrite length_app; cbn [length]; unfold size; lia).
       rewrite skipn_app, skipn_all, Nat.sub_diag. reflexivity. }
  rewrite constructPdolData_loop_result.
  unfold constructPdolData.
  destruct (Z.ltb_spec (size rest) 2) as [Hshort | Hlong].
  - destruct (length (hdr ++ l :: rest)) as [| k] eqn:Hk;
      [rewrite length_app in Hk; cbn [length] in Hk; lia |].
    rewrite constructPdolData_loop_header.
    destruct (Z.gtb_spec (size rest) 1); [lia | reflexivity].
  - rewrite (constructPdolData_loop_fuel _ (S (length rest)));
      [reflexivity | rewrite length_app; cbn [length]; lia | lia].
Qed.

Lemma constructPdolData_entries (entries : list dol_entry) (tail : list byte) :
  Forall dol_entry_ok entries ->
  constructPdolData (dol_bytes entries ++ tail)
  = ('(r, p) <- constructPdolData tail ;; Ok (dol_values entries ++ r, p)).
Proof.
  induction 1 as [| [[hdr tag] l] entries Hok _ IH].
  - cbn [dol_bytes dol_values flat_map app].
    destruct (constructPdolData tail) as [[r p] | |]; reflexivity.
  - unfold dol_bytes, dol_values in *. cbn [flat_map].
    rewrite <- !app_assoc. cbn [app].
    rewrite (constructPdolData_entry _ _ _ _ Hok), IH.
    destruct (constructPdolData tail) as [[r p] | |]; cbn [bind];
      try reflexivity.
    rewrite app_assoc. reflexivity.
Qed.

(** X6: for a request made of complete entries (a tag of one or two bytes
    and a length byte each), [constructPdolData] returns the values of the
    entries in request order, one value per entry: the constant of the table
    for a known tag, as many zero bytes as the entry asks for otherwise;
    a single byte left behind the last entry is ignored and stays in the
    request buffer. *)
Theorem constructPdolData_concatenates (entries : list dol_entry) (tail : list byte) :
  Forall dol_entry_ok entries ->
  size tail < 2 ->
  constructPdolData (dol_bytes entries ++ tail) = Ok (dol_values entries, tail).
Proof.
  intros Hok Htail. rewrite (constructPdolData_entries _ _ Hok).
  unfold constructPdolData. destruct (Z.ltb_spec (size tail) 2); [| lia].
  cbn [bind]. rewrite app_nil_r. reflexivity.
Qed.

Lemma constructPdolData_concatenates_witness :
  constructPdolData
    (dol_bytes [(bytes [0x9F; 0x66], 0x9F66, to_u8 4); (bytes [0x9F; 0x7C], 0x9F7C, to_u8 3)]
     ++ bytes [0x5A])
  = Ok (dol_values [(bytes [0x9F; 0x66], 0x9F66, to_u8 4);
                    (bytes [0x9F; 0x7C], 0x9F7C, to_u8 3)], bytes [0x5A]).
Proof.
  apply (constructPdolData_concatenates
           [(bytes [0x9F; 0x66], 0x9F66, to_u8 4); (bytes [0x9F; 0x7C], 0x9F7C, to_u8 3)]
           (bytes [0x5A])).
  - apply Forall_cons; [| apply Forall_cons; [| apply Forall_nil]]; right.
    + exists (to_u8 0x9F), (to_u8 0x66). repeat split; vm_compute; reflexivity.
    + exists (to_u8 0x9F), (to_u8 0x7C). repeat split; vm_compute; reflexivity.
  - vm_compute. reflexivity.
Defined.

(** X7: a request that ends, behind complete entries, with the two bytes of
    a two-byte tag and no length byte makes [constructPdolData] read past
    the end of the request. *)
Theorem constructPdolData_cut_entry (entries : list dol_entry) (t b : byte) :
  Forall dol_entry_ok entries ->
  Z.land (u8 t) 0x1F = 0x1F ->
  constructPdolData (dol_bytes entries ++ [t; b]) = OutOfRange.
Proof.
  intros Hok Ht. rewrite (constructPdolData_entries _ _ Hok).
  assert (constructPdolData [t; b] = OutOfRange) as E; [| rewrite E; reflexivity].
  unfold constructPdolData. change (size [t; b] <? 2) with false. cbv iota.
  cbn [length constructPdolData_loop]. change (size [t; b] >? 1) with true. cbv iota.
  change (at_ [t; b] 0) with (Ok (u8 t)). cbn [bind]. rewrite Ht, Z.eqb_refl.
  reflexivity.
Qed.

Lemma constructPdolData_cut_entry_witness :
  constructPdolData (dol_bytes [(bytes [0x5A], 0x5A, to_u8 8)] ++ bytes [0x9F; 0x1A])
  = OutOfRange.
Proof.
  apply (constructPdolData_cut_entry [(bytes [0x5A], 0x5A, to_u8 8)]
           (to_u8 0x9F) (to_u8 0x1A)).
  - apply Forall_cons; [| apply Forall_nil]. left. exists (to_u8 0x5A).
    split; [reflexivity | split; [vm_compute; discriminate | reflexivity]].
  - vm_compute. reflexivity.
Defined.

(** [findTag] on a buffer whose first node is known. *)
Lemma findTag_decoded (buf value rest : list byte) (tag target : Z) :
  decode_node buf = Some (tag, value, rest) ->
  findTag buf target
  = if tag =? target then Ok value
    else if is_template tag then
      r <- findTag value target ;;
      if is_empty r then findTag rest target else Ok r
    else findTag rest target.
Proof.
  intros Hnode. pose proof Hnode as Hdec. unfold decode_node in Hdec.
  destruct (Z.ltb_spec (size buf) 3) as [| Hsize]; [discriminate |].
  pose proof (tlv_header_decode buf Hsize) as Hh.
  destruct (decode_tag buf) as [[tag' r] |]; [| discriminate].
  destruct (decode_length r) as [[len r'] |]; [| discriminate].
  destruct (len <=? size r'); [| discriminate].
  injection Hdec as -> _ _.
  pose proof (tlv_header_bounds _ _ _ _ Hh) as [Hhl [Hlen Hle]].
  rewrite (decode_node_header _ _ _ _ Hsize Hh) in Hnode.
  rewrite findTag_unfold. unfold findTag_body.
  destruct (Z.ltb_spec (size buf) 3); [lia |].
  rewrite Hh. cbn [bind].
  destruct (Z.geb_spec (size buf) (len + (size buf - size r'))) as [Hfit |];
    [| discriminate].
  injection Hnode as <- <-.
  assert ((if size buf >? len + (size buf - size r')
           then findTag (slice buf (size buf - size r' + len) (size buf)) target
           else Ok [])
          = findTag (slice buf (size buf - size r' + len) (size buf)) target) as Hrest.
  { destruct (Z.gtb_spec (size buf) (len + (size buf - size r'))) as [| Hend];
      [reflexivity |].
    rewrite slice_to_end, skipn_all2 by (unfold size in *; lia). reflexivity. }
  destruct (tag =? target); cbn [bind]; [reflexivity |].
  destruct (is_template tag); cbn [bind]; [| exact Hrest].
  destruct (findTag (slice buf (size buf - size r') (size buf - size r' + len)) target)
    as [[| x v] | |]; cbn [bind negb is_empty]; try reflexivity.
  exact Hrest.
Qed.

Lemma decode_node_encoded (hdr lb value rest : list byte) (tag : Z) :
  encodes_tag hdr tag ->
  encodes_length lb (size value) ->
  3 <= size (hdr ++ lb ++ value ++ rest) ->
  decode_node (hdr ++ lb ++ value ++ rest) = Some (tag, value, rest).
Proof.
  intros Hhdr Hlb Hsize. unfold decode_node.
  destruct (Z.ltb_spec (size (hdr ++ lb ++ value ++ rest)) 3); [lia |].
  assert (decode_tag (hdr ++ lb ++ value ++ rest) = Some (tag, lb ++ value ++ rest)) as Et.
  { destruct Hlb as [[l [-> _]] | [l [n [-> _]]]];
      destruct Hhdr as [[t [-> [Ht ->]]] | [t [b [-> [Ht ->]]]]]; cbn [app decode_tag];
      try (destruct (Z.eqb_spec (Z.land (u8 t) 31) 31); [contradiction | reflexivity]);
      rewrite Ht, Z.eqb_refl, shiftl8_lor; reflexivity. }
  assert (decode_length (lb ++ value ++ rest) = Some (size value, value ++ rest)) as El.
  { destruct Hlb as [[l [-> [Hl ->]]] | [l [n [-> [Hl ->]]]]]; cbn [app decode_length];
      rewrite Hl; reflexivity. }
  rewrite Et, El.
  destruct (Z.leb_spec (size value) (size (value ++ rest))) as [_ | Hover];
    [| rewrite size_app in Hover; pose proof (size_nonneg rest); lia].
  unfold size. rewrite Nat2Z.id, firstn_app, skipn_app, Nat.sub_diag, firstn_all, skipn_all.
  cbn [firstn skipn app]. rewrite app_nil_r. reflexivity.
Qed.

(** X3: [findTag] on a buffer that starts with a whole node (tag bytes,
    length bytes in either form, value) followed by [rest]. The value is
    returned when the tag is the target; the value of a template node that
    is not the target is searched first and the siblings only when that
    gives nothing; a node that is neither is stepped over. *)
Theorem findTag_node (hdr lb value rest : list byte) (tag target : Z) :
  encodes_tag hdr tag ->
  encodes_length lb (size value) ->
  findTag (hdr ++ lb ++ value ++ rest) target
  = if tag =? target then Ok value
    else if is_template tag then
      r <- findTag value target ;;
      if is_empty r then findTag rest target else Ok r
    else findTag rest target.
Proof.
  intros Hhdr Hlb.
  destruct (Z.lt_ge_cases (size (hdr ++ lb ++ value ++ rest)) 3) as [Hshort | Hsize].
  - (* two bytes: a one-byte tag and the length 0 *)
    pose proof (encodes_tag_size _ _ Hhdr) as Hs.
    assert (value = [] /\ rest = []) as [-> ->].
    { rewrite !size_app in Hshort.
      pose proof (size_nonneg value). pose proof (size_nonneg rest).
      assert (1 <= size lb) by
        (destruct Hlb as [[l [-> _]] | [l [n [-> _]]]]; rewrite ?size_cons, size_nil; lia).
      split.
      - destruct value as [| x v]; [reflexivity |].
        rewrite size_cons in Hshort. pose proof (size_nonneg v). lia.
      - destruct rest as [| x v]; [reflexivity |].
        rewrite size_cons in Hshort. pose proof (size_nonneg v). lia. }
    rewrite findTag_unfold. unfold findTag_body.
    destruct (Z.ltb_spec (size (hdr ++ lb ++ [] ++ [])) 3); [| lia].
    change (findTag [] target) with (@Ok (list byte) []). cbn [bind is_empty].
    destruct (tag =? target); [reflexivity |]. destruct (is_template tag); reflexivity.
  - apply findTag_decoded. apply decode_node_encoded; assumption.
Qed.

Lemma findTag_node_witness :
  findTag (bytes [0x84] ++ bytes [0x07]
           ++ bytes [0xA0; 0x00; 0x00; 0x00; 0x03; 0x10; 0x10]
           ++ bytes [0xA5; 0x03; 0x88; 0x01; 0x02]) 0x88
  = if 0x84 =? 0x88 then Ok (bytes [0xA0; 0x00; 0x00; 0x00; 0x03; 0x10; 0x10])
    else if is_template 0x84 then
      r <- findTag (bytes [0xA0; 0x00; 0x00; 0x00; 0x03; 0x10; 0x10]) 0x88 ;;
      if is_empty r then findTag (bytes [0xA5; 0x03; 0x88; 0x01; 0x02]) 0x88 else Ok r
    else findTag (bytes [0xA5; 0x03; 0x88; 0x01; 0x02]) 0x88.
Proof.
  apply (findTag_node (bytes [0x84]) (bytes [0x07])
           (bytes [0xA0; 0x00; 0x00; 0x00; 0x03; 0x10; 0x10])
           (bytes [0xA5; 0x03; 0x88; 0x01; 0x02]) 0x84 0x88).
  - left. exists (to_u8 0x84).
    split; [reflexivity | split; [vm_compute; discriminate | reflexivity]].
  - left. exists (to_u8 0x07). split; [reflexivity | split; vm_compute; reflexivity].
Defined.

(** ** parseTags: what it reads and what it records *)

Lemma parseTags_header (fuel : nat) (h : storage) (ber_data : list byte) (m : tag_map) :
  parseTags (S fuel) h ber_data m
  = ('(tag, len, headerLen) <- short_header ber_data ;;
     parseTags_node (parseTags fuel) h ber_data m tag len headerLen).
Proof.
  cbn [parseTags]. unfold short_header.
  destruct (at_ ber_data 0) as [t | |]; cbn [bind]; try reflexivity.
  destruct (Z.land t 31 =? 31); cbn [bind].
  - destruct (at_ ber_data 1) as [b | |]; cbn [bind]; try reflexivity.
    destruct (at_ ber_data 2) as [l | |]; reflexivity.
  - destruct (at_ ber_data 1) as [l | |]; reflexivity.
Qed.

Lemma short_header_short (buf : list byte) : size buf < 2 -> short_header buf = OutOfRange.
Proof.
  intros Hsize. destruct buf as [| t [| b rest]].
  - reflexivity.
  - unfold short_header. change (at_ [t] 0) with (Ok (u8 t)). cbn [bind].
    destruct (Z.land (u8 t) 31 =? 31); reflexivity.
  - rewrite !size_cons in Hsize. pose proof (size_nonneg rest). lia.
Qed.

Lemma short_header_terminates (buf : list byte) : short_header buf <> OutOfFuel.
Proof.
  unfold short_header.
  repeat (first [next_read | destruct (_ =? _); cbn [bind]]); discriminate.
Qed.

Lemma parseTags_fuel_enough (fuel : nat) :
  forall (h : storage) (ber_data : list byte) (m : tag_map),
    (length ber_data < fuel)%nat -> parseTags fuel h ber_data m <> OutOfFuel.
Proof.
  induction fuel as [| fuel IH]; intros h ber_data m Hfuel; [lia |].
  rewrite parseTags_header.
  destruct (short_header ber_data) as [[[tag len] hl] | |] eqn:Hh; cbn [bind];
    [| discriminate | exfalso; exact (short_header_terminates _ Hh)].
  apply short_header_bounds in Hh. destruct Hh as [Hhl [Hlen Hle]].
  assert (forall h0 m0 from to, 2 <= from -> to <= size ber_data ->
            parseTags fuel h0 (slice ber_data from to) m0 <> OutOfFuel) as Hrec.
  { intros h0 m0 from to Hfrom Hto. apply IH.
    pose proof (slice_length ber_data from to). unfold size in *. lia. }
  unfold parseTags_node.
  destruct (Z.gtb_spec (size ber_data) (len + hl)) as [Hmore | Hnomore].
  - cbn [alloc].
    destruct (parseTags fuel _ (slice ber_data (hl + len) (size ber_data)) m)
      as [[h1 m1] | |] eqn:E1; cbn [bind]; [| discriminate |].
    + destruct (size ber_data >=? len + hl); [| discriminate].
      cbn [alloc]. destruct (_ || _); cbn [bind]; [| discriminate].
      destruct (parseTags fuel _ (slice ber_data hl (hl + len)) _)
        as [[h2 m2] | |] eqn:E2; cbn [bind]; try discriminate.
      exfalso. revert E2. apply Hrec; lia.
    + exfalso. revert E1. apply Hrec; lia.
  - cbn [bind].
    destruct (Z.geb_spec (size ber_data) (len + hl)); [| discriminate].
    cbn [alloc]. destruct (_ || _); cbn [bind]; [| discriminate].
    destruct (parseTags fuel _ (slice ber_data hl (hl + len)) _)
      as [[h2 m2] | |] eqn:E2; cbn [bind]; try discriminate.
    exfalso. revert E2. apply Hrec; lia.
Qed.

Lemma keeps_refl (m : tag_map) : keeps m m.
Proof. intros tag p H. exact H. Qed.

Lemma keeps_trans (m1 m2 m3 : tag_map) : keeps m1 m2 -> keeps m2 m3 -> keeps m1 m3.
Proof. intros H12 H23 tag p H. apply H23, H12, H. Qed.

Lemma keeps_insert (m : tag_map) (tag : Z) (p : ptr) : keeps m (map_insert m tag p).
Proof.
  intros k q H. unfold map_insert.
  destruct (map_find m tag); [exact H |].
  rewrite map_find_app, H. reflexivity.
Qed.

Lemma map_find_insert (m : tag_map) (tag : Z) (p : ptr) :
  exists q, map_find (map_insert m tag p) tag = Some q.
Proof.
  unfold map_insert. destruct (map_find m tag) as [q |] eqn:E.
  - exists q. exact E.
  - exists p. rewrite map_find_app, E. cbn [map_find]. rewrite Z.eqb_refl. reflexivity.
Qed.

(** What one level of [parseTags] does to the map, given what the recursive
    calls do to it. *)
Lemma parseTags_node_map
    (rec : storage -> list byte -> tag_map -> outcome (storage * tag_map))
    (h h' : storage) (ber_data : list byte) (m m' : tag_map) (tag len hl : Z) :
  (forall h0 h1 v m0 m1, rec h0 v m0 = Ok (h1, m1) -> keeps m0 m1) ->
  parseTags_node rec h ber_data m tag len hl = Ok (h', m') ->
  keeps m m'
  /\ (size ber_data >= len + hl -> exists q, map_find m' tag = Some q).
Proof.
  intros Hrec H. unfold parseTags_node in H.
  assert (exists h1 m1,
            keeps m m1
            /\ (if size ber_data >=? len + hl
                then
                  let '(h2, v) := alloc h1 (slice ber_data hl (hl + len)) in
                  ' (h3, m3) <-
                    (if (tag =? 0x6F) || (tag =? 0xA5) || (tag =? 0xBF0C) || (tag =? 0x61)
                     then rec h2 (slice ber_data hl (hl + len)) (map_insert m1 tag v)
                     else Ok (h2, map_insert m1 tag v)) ;;
                  Ok (release h3 v, m3)
                else Ok (h1, m1)) = Ok (h', m')) as [h1 [m1 [K1 H1]]].
  { destruct (size ber_data >? len + hl).
    - cbn [alloc] in H.
      destruct (rec _ (slice ber_data (hl + len) (size ber_data)) m)
        as [[h1 m1] | |] eqn:E; cbn [bind] in H; try discriminate H.
      exists (release h1 (length h)), m1. split; [exact (Hrec _ _ _ _ _ E) | exact H].
    - cbn [bind] in H. exists h, m. split; [apply keeps_refl | exact H]. }
  clear H.
  destruct (Z.geb_spec (size ber_data) (len + hl)) as [Hfit | Hover].
  - cbn [alloc] in H1.
    assert (keeps (map_insert m1 tag (length h1)) m') as K2.
    { destruct (_ || _).
      - destruct (rec _ (slice ber_data hl (hl + len)) (map_insert m1 tag (length h1)))
          as [[h3 m3] | |] eqn:E; cbn [bind] in H1; try discriminate H1.
        injection H1 as _ <-. exact (Hrec _ _ _ _ _ E).
      - cbn [bind] in H1. injection H1 as _ <-. apply keeps_refl. }
    split.
    + eapply keeps_trans; [exact K1 |].
      eapply keeps_trans; [apply keeps_insert | exact K2].
    + intros _. destruct (map_find_insert m1 tag (length h1)) as [q Hq].
      exists q. apply K2. exact Hq.
  - injection H1 as _ <-. split; [exact K1 | lia].
Qed.

Lemma parseTags_keeps (fuel : nat) :
  forall (h h' : storage) (ber_data : list byte) (m m' : tag_map),
    parseTags fuel h ber_data m = Ok (h', m') -> keeps m m'.
Proof.
  induction fuel as [| fuel IH]; intros h h' ber_data m m' H; [discriminate H |].
  rewrite parseTags_header in H.
  destruct (short_header ber_data) as [[[tag len] hl] | |]; cbn [bind] in H;
    try discriminate H.
  exact (proj1 (parseTags_node_map (parseTags fuel) _ _ _ _ _ _ _ _ IH H)).
Qed.

(** X8: [parseTags] only adds to the map: an entry that is in the map
    before the call is in it, unchanged, after the call (a tag decoded twice
    keeps the pointer stored first). *)
Theorem parseTags_keeps_entries (fuel : nat) (h h' : storage) (ber_data : list byte)
    (tagMap tagMap' : tag_map) (tag : Z) (p : ptr) :
  parseTags fuel h ber_data tagMap = Ok (h', tagMap') ->
  map_find tagMap tag = Some p ->
  map_find tagMap' tag = Some p.
Proof. intros H. exact (parseTags_keeps fuel _ _ _ _ _ H tag p). Qed.

Lemma parseTags_keeps_entries_witness :
  map_find [(0x5A, 7%nat)] 0x5A = Some 7%nat.
Proof.
  apply (parseTags_keeps_entries 2 [] [{| contents := bytes [0x12; 0x34]; live := false |}]
           pan_node_sample [(0x5A, 7%nat)] [(0x5A, 7%nat)] 0x5A 7%nat).
  - vm_compute. reflexivity.
  - vm_compute. reflexivity.
Defined.

(** X9: when [parseTags] returns on a buffer whose first node lies within
    the buffer, the map has an entry for the tag of that node. The length is
    the single byte behind the tag, whatever its high bit. *)
Theorem parseTags_records_first_tag (fuel : nat) (h h' : storage)
    (hdr value rest : list byte) (l : byte) (tag : Z) (tagMap tagMap' : tag_map) :
  encodes_tag hdr tag ->
  size value = u8 l ->
  parseTags fuel h (hdr ++ l :: value ++ rest) tagMap = Ok (h', tagMap') ->
  exists p, map_find tagMap' tag = Some p.
Proof.
  intros Hhdr Hvalue H. destruct fuel as [| fuel]; [discriminate H |].
  rewrite parseTags_header, (short_header_encoded _ _ _ _ Hhdr) in H. cbn [bind] in H.
  apply (parseTags_node_map (parseTags fuel)) in H; [| exact (parseTags_keeps fuel)].
  apply (proj2 H).
  rewrite size_app, size_cons, size_app, Hvalue. pose proof (size_nonneg rest). lia.
Qed.

Lemma parseTags_records_first_tag_witness : exists p, map_find [(0x5A, 0%nat)] 0x5A = Some p.
Proof.
  apply (parseTags_records_first_tag 2 []
           [{| contents := bytes [0x12; 0x34]; live := false |}]
           (bytes [0x5A]) (bytes [0x12; 0x34]) [] (to_u8 0x02) 0x5A [] [(0x5A, 0%nat)]).
  - left. exists (to_u8 0x5A).
    split; [reflexivity | split; [vm_compute; discriminate | reflexivity]].
  - vm_compute. reflexivity.
  - vm_compute. reflexivity.
Defined.

(** X10: a first node whose length byte asks for more than what is left
    in the buffer is dropped: [parseTags] returns with the map and the
    storage as they were. A length byte with the high bit set is such a
    length (there is no long form here). *)
Theorem parseTags_drops_overrun (fuel : nat) (h : storage) (hdr rest : list byte)
    (l : byte) (tag : Z) (tagMap : tag_map) :
  encodes_tag hdr tag ->
  size rest < u8 l ->
  parseTags (S fuel) h (hdr ++ l :: rest) tagMap = Ok (h, tagMap).
Proof.
  intros Hhdr Hover.
  rewrite parseTags_header, (short_header_encoded _ _ _ _ Hhdr). cbn [bind].
  unfold parseTags_node. rewrite size_app, size_cons.
  destruct (Z.gtb_spec (size hdr + (size rest + 1)) (u8 l + (size hdr + 1))); [lia |].
  cbn [bind].
  destruct (Z.geb_spec (size hdr + (size rest + 1)) (u8 l + (size hdr + 1))); [lia |].
  reflexivity.
Qed.

Lemma parseTags_drops_overrun_witness :
  parseTags 1 [] (bytes [0x5A] ++ to_u8 0x81 :: bytes [0x01; 0xAA]) [] = Ok ([], []).
Proof.
  apply (parseTags_drops_overrun 0 [] (bytes [0x5A]) (bytes [0x01; 0xAA]) (to_u8 0x81) 0x5A []).
  - left. exists (to_u8 0x5A).
    split; [reflexivity | split; [vm_compute; discriminate | reflexivity]].
  - vm_compute. reflexivity.
Defined.

(** X11: [parseTags] has no guard on the size of its buffer. On a buffer
    of fewer than 2 bytes it reads out of range, and so it does on every
    buffer that starts with a template node (0x6F, 0xA5, 0xBF0C, 0x61) whose
    value has fewer than 2 bytes, an empty template included. *)
Theorem parseTags_unguarded (fuel : nat) (h : storage) (tagMap : tag_map) :
  (forall buf, size buf < 2 -> parseTags (S fuel) h buf tagMap = OutOfRange)
  /\ (forall hdr value rest l tag,
        encodes_tag hdr tag ->
        parse_template tag = true ->
        size value = u8 l ->
        size value < 2 ->
        (length (hdr ++ l :: value ++ rest) <= fuel)%nat ->
        parseTags (S fuel) h (hdr ++ l :: value ++ rest) tagMap = OutOfRange).
Proof.
  assert (forall k h0 buf m0, size buf < 2 -> parseTags (S k) h0 buf m0 = OutOfRange)
    as Hshort.
  { intros k h0 buf m0 Hs. rewrite parseTags_header, (short_header_short _ Hs).
    reflexivity. }
  split; [intros buf; apply Hshort |].
  intros hdr value rest l tag Hhdr Htpl Hvalue Hsmall Hfuel.
  pose proof (encodes_tag_size _ _ Hhdr) as Hs.
  pose proof (size_nonneg rest) as Hrest.
  destruct fuel as [| fuel]; [rewrite length_app in Hfuel; cbn [length] in Hfuel; lia |].
  rewrite parseTags_header, (short_header_encoded _ _ _ _ Hhdr). cbn [bind].
  unfold parseTags_node.
  replace (slice (hdr ++ l :: value ++ rest) (size hdr + 1) (size hdr + 1 + u8 l))
    with value.
  2: { replace (hdr ++ l :: value ++ rest) with ((hdr ++ [l]) ++ value ++ rest)
         by (rewrite <- app_assoc; reflexivity).
       replace (size hdr + 1) with (size (hdr ++ [l]))
         by (rewrite size_app, size_cons, size_nil; lia).
       rewrite slice_app_value by (pose proof (u8_range l); lia).
       rewrite <- Hvalue. unfold size.
       rewrite Nat2Z.id, firstn_app, Nat.sub_diag, firstn_all. cbn [firstn].
       symmetry. apply app_nil_r. }
  unfold parse_template in Htpl. rewrite Htpl.
  destruct (Z.geb_spec (size (hdr ++ l :: value ++ rest)) (u8 l + (size hdr + 1)))
    as [_ | Hover];
    [| rewrite size_app, size_cons, size_app in Hover; lia].
  destruct (size (hdr ++ l :: value ++ rest) >? u8 l + (size hdr + 1)).
  - cbn [alloc].
    destruct (parseTags (S fuel) _
                (slice (hdr ++ l :: value ++ rest) (size hdr + 1 + u8 l)
                   (size (hdr ++ l :: value ++ rest))) tagMap)
      as [[h1 m1] | |] eqn:E1; cbn [bind]; [| reflexivity |].
    + cbn [alloc]. rewrite (Hshort fuel _ value _ Hsmall). reflexivity.
    + exfalso. revert E1. apply parseTags_fuel_enough.
      rewrite slice_to_end, length_skipn. pose proof (u8_range l).
      unfold size in *. lia.
  - cbn [bind alloc]. rewrite (Hshort fuel _ value _ Hsmall). reflexivity.
Qed.

Lemma parseTags_unguarded_witness :
  parseTags 3 [] (bytes [0x6F] ++ to_u8 0x00 :: [] ++ []) [] = OutOfRange.
Proof.
  apply (proj2 (parseTags_unguarded 2 [] []) (bytes [0x6F]) [] [] (to_u8 0x00) 0x6F).
  - left. exists (to_u8 0x6F).
    split; [reflexivity | split; [vm_compute; discriminate | reflexivity]].
  - vm_compute. reflexivity.
  - vm_compute. reflexivity.
  - vm_compute. reflexivity.
  - vm_compute. lia.
Defined.

(** X12: [parseTags] never runs without end: started with more fuel than
    the buffer has bytes it returns or reads out of range. *)
Theorem parseTags_terminates (fuel : nat) (h : storage) (ber_data : list byte)
    (tagMap : tag_map) :
  (length ber_data < fuel)%nat ->
  parseTags fuel h ber_data tagMap <> OutOfFuel.
Proof. apply parseTags_fuel_enough. Qed.

Lemma parseTags_terminates_witness :
  parseTags 5 [] pan_node_sample [] <> OutOfFuel.
Proof. apply (parseTags_terminates 5 [] pan_node_sample []). vm_compute. lia. Defined.

(** ** sendAPDU: responses too short to hold a status word *)

Section ShortResponses.

Variable T : Type.
Variable write_command_ : T -> list byte -> T * bool.
Variable read_response : T -> Z -> list byte -> T * bool * list byte.
Variable PN532_COMMAND_INDATAEXCHANGE : Z.

(** X13: [sendAPDU] reads outside the response exactly when the write and
    the read succeed and the response is empty or is the single byte 0x00;
    in every other case it returns. *)
Theorem sendAPDU_out_of_range (st st1 st2 : T) (apdu response raw : list byte)
    (written received : bool) :
  write_command_ st ([to_u8 PN532_COMMAND_INDATAEXCHANGE; to_u8 0x01] ++ apdu)
  = (st1, written) ->
  read_response st1 PN532_COMMAND_INDATAEXCHANGE response = (st2, received, raw) ->
  (sendAPDU T write_command_ read_response PN532_COMMAND_INDATAEXCHANGE st apdu response
   = OutOfRange
   <-> written = true /\ received = true /\ (raw = [] \/ raw = [to_u8 0x00]))
  /\ sendAPDU T write_command_ read_response PN532_COMMAND_INDATAEXCHANGE st apdu response
     <> OutOfFuel.
Proof.
  intros Hw Hr.
  destruct written.
  2: { unfold sendAPDU. rewrite Hw. cbn [negb].
       split; [split; [discriminate | intros [F _]; discriminate F] | discriminate]. }
  destruct received.
  2: { unfold sendAPDU. rewrite Hw. cbn [negb]. rewrite Hr. cbn [negb].
       split; [split; [discriminate | intros [_ [F _]]; discriminate F] | discriminate]. }
  destruct raw as [| x [| y raw]].
  - unfold sendAPDU. rewrite Hw. cbn [negb]. rewrite Hr. cbn [negb].
    split; [split; [intros _; auto | reflexivity] | discriminate].
  - unfold sendAPDU. rewrite Hw. cbn [negb]. rewrite Hr. cbn [negb].
    change (at_ [x] 0) with (Ok (u8 x)).
    change (at_ [x] (size [x] - 1)) with (Ok (u8 x)).
    change (at_ [x] (size [x] - 2)) with (@OutOfRange Z). cbn [bind].
    destruct (Z.eqb_spec (u8 x) 0) as [Hx | Hx]; cbn [negb bind].
    + split; [| discriminate]. split; [intros _ | reflexivity].
      repeat split. right. rewrite <- (to_u8_u8 x), Hx. reflexivity.
    + split; [| discriminate]. split; [discriminate |].
      intros [_ [_ [F | F]]]; [discriminate F |].
      injection F as ->. exfalso. apply Hx. reflexivity.
  - assert (2 <= size (x :: y :: raw)) as Hsize
      by (rewrite !size_cons; pose proof (size_nonneg raw); lia).
    destruct (two_last _ Hsize) as [body [sw1 [sw2 E]]]. rewrite E in Hr.
    rewrite (sendAPDU_checks _ _ _ _ _ _ _ _ _ _ _ _ Hw Hr).
    destruct (_ && _).
    + split; [split; [discriminate | intros [_ [_ [F | F]]]; discriminate F]
             | discriminate].
    + split; [split; [discriminate | intros [_ [_ [F | F]]]; discriminate F]
             | discriminate].
Qed.

End ShortResponses.

Lemma sendAPDU_out_of_range_witness :
  sendAPDU scripted scripted_write scripted_read 0x40
    {| script := [{| write_ok := true; read_ok := true; answer := bytes [0x00] |}];
       sent := [] |} select_ppse []
  = OutOfRange.
Proof.
  apply (sendAPDU_out_of_range scripted scripted_write scripted_read 0x40
           {| script := [{| write_ok := true; read_ok := true; answer := bytes [0x00] |}];
              sent := [] |}
           {| script := [{| write_ok := true; read_ok := true; answer := bytes [0x00] |}];
              sent := [select_ppse_frame] |}
           {| script := []; sent := [select_ppse_frame] |}
           select_ppse [] (bytes [0x00]) true true).
  - vm_compute. reflexivity.
  - vm_compute. reflexivity.
  - repeat split. right. reflexivity.
Defined.

(** ** The record loop: when it ends *)

Lemma parse_nibbles_fuel_enough (data : list byte) (terminator : byte) :
  size data <= 255 ->
  parse_nibbles (S (length data)) data terminator <> OutOfFuel.
Proof.
  intros Hlen. unfold parse_nibbles.
  pose proof (parse_nibbles_loop_scan (u8 terminator) data (S (length data)) [] []
                ltac:(lia) Hlen) as L.
  cbn [app] in L. rewrite size_nil in L. rewrite L. cbn [bind].
  destruct (_ || _); discriminate.
Qed.

Lemma parse_track1_fuel_enough (data : list byte) :
  parse_track1 (S (length data)) data <> OutOfFuel.
Proof. rewrite parse_track1_described by lia. discriminate. Qed.

Lemma findTag_short_value (buf r : list byte) (target : Z) :
  findTag buf target = Ok r -> size r <= 255.
Proof. exact (findTag_value_short target (length buf) buf r eq_refl). Qed.

Section RecordLoop.

Variable T : Type.
Variable write_command_ : T -> list byte -> T * bool.
Variable read_response : T -> Z -> list byte -> T * bool * list byte.
Variable PN532_COMMAND_INDATAEXCHANGE : Z.
Variable EMV_TAG_TRACK2 : Z.
Variable EMV_TAG_TRACK1 : Z.
Variable EMV_TAG_PAN : Z.

Local Abbreviation send :=
  (sendAPDU T write_command_ read_response PN532_COMMAND_INDATAEXCHANGE).

Local Abbreviation records :=
  (read_records T write_command_ read_response PN532_COMMAND_INDATAEXCHANGE
     EMV_TAG_TRACK2 EMV_TAG_TRACK1 EMV_TAG_PAN).

Lemma sendAPDU_terminates (st : T) (apdu response : list byte) :
  send st apdu response <> OutOfFuel.
Proof.
  unfold sendAPDU.
  destruct (write_command_ st _) as [st1 written].
  destruct written; cbn [negb]; [| discriminate].
  destruct (read_response st1 _ response) as [[st2 received] raw].
  destruct received; cbn [negb]; [| discriminate].
  repeat (first [next_read | destruct (_ =? _); cbn [bind negb]]); discriminate.
Qed.

(** X14: with a last record number below 255 the record loop ends: it
    returns or reads out of range within one pass per record. *)
Theorem read_records_terminates (fuel : nat) (st : T) (sfi start end_ : Z)
    (response : list byte) :
  0 <= start ->
  end_ <= 254 ->
  (Z.to_nat (end_ - start + 1) < fuel)%nat ->
  read_records T write_command_ read_response PN532_COMMAND_INDATAEXCHANGE
    EMV_TAG_TRACK2 EMV_TAG_TRACK1 EMV_TAG_PAN
    fuel st sfi start end_ response <> OutOfFuel.
Proof.
  revert st start response.
  induction fuel as [| fuel IH]; intros st start response Hstart Hend Hfuel; [lia |].
  cbn [read_records].
  destruct (Z.leb_spec start end_) as [Hle | Hgt]; [| discriminate].
  assert (forall st0 resp0,
            records fuel st0 sfi ((start + 1) mod 256) end_ resp0 <> OutOfFuel) as Hnext.
  { intros st0 resp0. rewrite Z.mod_small by lia. apply IH; lia. }
  destruct (send st _ response) as [[[st1 ok] response1] | |] eqn:Es; cbn [bind];
    [| discriminate | exfalso; exact (sendAPDU_terminates _ _ _ Es)].
  destruct ok; [| apply Hnext].
  destruct (findTag response1 EMV_TAG_TRACK2) as [pan2 | |] eqn:E2; cbn [bind];
    [| discriminate | exfalso; exact (findTag_terminates _ _ E2)].
  destruct (size pan2 >? 0).
  { pose proof (parse_nibbles_fuel_enough pan2 (to_u8 0x0D) (findTag_short_value _ _ _ E2)).
    unfold parse_track2.
    destruct (parse_nibbles (S (length pan2)) pan2 (to_u8 13)); cbn [bind];
      [discriminate | discriminate | contradiction]. }
  destruct (findTag response1 EMV_TAG_TRACK1) as [pan1 | |] eqn:E1; cbn [bind];
    [| discriminate | exfalso; exact (findTag_terminates _ _ E1)].
  destruct (size pan1 >? 0).
  { pose proof (parse_track1_fuel_enough pan1).
    destruct (parse_track1 (S (length pan1)) pan1); cbn [bind];
      [discriminate | discriminate | contradiction]. }
  destruct (findTag response1 EMV_TAG_PAN) as [pan | |] eqn:E0; cbn [bind];
    [| discriminate | exfalso; exact (findTag_terminates _ _ E0)].
  destruct (size pan >? 0); [| apply Hnext].
  pose proof (parse_nibbles_fuel_enough pan (to_u8 0x0F) (findTag_short_value _ _ _ E0)).
  unfold parse_pan.
  destruct (parse_nibbles (S (length pan)) pan (to_u8 15)); cbn [bind];
    [discriminate | discriminate | contradiction].
Qed.

(** X15: with the last record number 255 the loop condition [start <= end]
    always holds for the 8-bit counter: once the transport only fails (the
    card has left the field), the record loop never ends. *)
Theorem read_records_never_ends (gone : T -> Prop) (fuel : nat) (st : T)
    (sfi start : Z) (response : list byte) :
  (forall st0 command, gone st0 ->
     snd (write_command_ st0 command) = false /\ gone (fst (write_command_ st0 command))) ->
  gone st ->
  0 <= start <= 255 ->
  read_records T write_command_ read_response PN532_COMMAND_INDATAEXCHANGE
    EMV_TAG_TRACK2 EMV_TAG_TRACK1 EMV_TAG_PAN
    fuel st sfi start 255 response = OutOfFuel.
Proof.
  intros Hgone. revert st start.
  induction fuel as [| fuel IH]; intros st start Hst Hstart; [reflexivity |].
  cbn [read_records].
  destruct (Z.leb_spec start 255) as [_ | Hgt]; [| lia].
  unfold sendAPDU.
  destruct (Hgone st ([to_u8 PN532_COMMAND_INDATAEXCHANGE; to_u8 0x01]
                      ++ bytes [0x00; 0xb2] ++ [to_u8 start; to_u8 sfi; to_u8 0x00]) Hst)
    as [Hfail Hstill].
  destruct (write_command_ st _) as [st1 written]. cbn [fst snd] in *. subst written.
  cbn [negb bind].
  apply IH; [exact Hstill |].
  pose proof (Z.mod_pos_bound (start + 1) 256 ltac:(lia)). lia.
Qed.

End RecordLoop.

Lemma read_records_terminates_witness :
  read_records scripted scripted_write scripted_read 0x40 0x57 0x56 0x5A
    3 {| script := [plain_record_reply; pan_record_reply]; sent := [] |} 0x0C 1 2 []
  <> OutOfFuel.
Proof.
  apply (read_records_terminates scripted scripted_write scripted_read 0x40 0x57 0x56 0x5A
           3 {| script := [plain_record_reply; pan_record_reply]; sent := [] |} 0x0C 1 2 []).
  - lia.
  - lia.
  - vm_compute. lia.
Defined.

Lemma read_records_never_ends_witness :
  read_records scripted scripted_write scripted_read 0x40 0x57 0x56 0x5A
    1000 {| script := []; sent := [] |} 0x0C 1 255 []
  = OutOfFuel.
Proof.
  apply (read_records_never_ends scripted scripted_write scripted_read 0x40 0x57 0x56 0x5A
           (fun st => script st = []) 1000 {| script := []; sent := [] |} 0x0C 1 []).
  - intros st0 command H. unfold scripted_write. rewrite H. split; reflexivity.
  - reflexivity.
  - lia.
Defined.

(** ** The commands on the transport *)

(** Every exchange that returns has written one frame: the opcode, the
    target 0x01 and the APDU. *)
Lemma scripted_sendAPDU_sent (command : Z) (st st' : scripted)
    (apdu response response' : list byte) (ok : bool) :
  sendAPDU scripted scripted_write scripted_read command st apdu response
  = Ok (st', ok, response') ->
  sent st' = sent st ++ [exchange_frame command apdu].
Proof.
  unfold sendAPDU, scripted_write, scripted_read, exchange_frame.
  destruct st as [[| r rest] log]; cbn [script sent app].
  - cbn [negb]. intros H; injection H as <- _ _. reflexivity.
  - destruct (write_ok r); cbn [negb script sent];
      [| intros H; injection H as <- _ _; reflexivity].
    destruct (read_ok r); cbn [negb];
      [| intros H; injection H as <- _ _; reflexivity].
    intros H.
    repeat match type of H with
           | bind (at_ ?v ?i) _ = _ =>
               destruct (at_ v i); cbn [bind] in H; try discriminate H
           | (if ?c then _ else _) = _ => destruct c
           end; injection H as <- _ _; reflexivity.
Qed.

Lemma scripted_sendAPDU_3_sent (command : Z) (st st' : scripted)
    (apdu response response' : list byte) (ok : bool) :
  sendAPDU_3 scripted scripted_write scripted_read command st apdu response
  = Ok (st', ok, response') ->
  exists n,
    sent st' = sent st ++ repeat (exchange_frame command apdu) n
    /\ (1 <= n <= 3)%nat
    /\ (ok = false -> n = 3%nat).
Proof.
  unfold sendAPDU_3. intros H.
  destruct (sendAPDU _ _ _ command st apdu response) as [[[st1 ok1] r1] | |] eqn:E1;
    cbn [bind] in H; try discriminate H.
  apply scripted_sendAPDU_sent in E1.
  destruct ok1.
  { injection H as <- <- _. exists 1%nat. cbn [repeat].
    split; [exact E1 | split; [lia | discriminate]]. }
  destruct (sendAPDU _ _ _ command st1 apdu r1) as [[[st2 ok2] r2] | |] eqn:E2;
    cbn [bind] in H; try discriminate H.
  apply scripted_sendAPDU_sent in E2.
  destruct ok2.
  { injection H as <- <- _. exists 2%nat. cbn [repeat].
    split; [rewrite E2, E1, <- app_assoc; reflexivity | split; [lia | discriminate]]. }
  destruct (sendAPDU _ _ _ command st2 apdu r2) as [[[st3 ok3] r3] | |] eqn:E3;
    cbn [bind] in H; try discriminate H.
  apply scripted_sendAPDU_sent in E3.
  exists 3%nat. cbn [repeat].
  assert (st' = st3) as -> by (destruct ok3; injection H as <- _ _; reflexivity).
  split; [rewrite E3, E2, E1, <- !app_assoc; reflexivity | split; [lia | reflexivity]].
Qed.

(** X16: the three attempts of the SELECT AID and GPO steps. On the
    scripted transport the command is written at least once and at most
    three times, always the same frame; a failure is reported only after
    three attempts. *)
Theorem sendAPDU_3_attempts (command : Z) (st st' : scripted)
    (apdu response response' : list byte) (ok : bool) :
  sendAPDU_3 scripted scripted_write scripted_read command st apdu response
  = Ok (st', ok, response') ->
  exists n,
    sent st' = sent st ++ repeat (exchange_frame command apdu) n
    /\ (1 <= n <= 3)%nat
    /\ (ok = false -> n = 3%nat).
Proof. apply scripted_sendAPDU_3_sent. Qed.

Lemma sendAPDU_3_attempts_witness :
  exists n,
    sent {| script := [];
            sent := [select_ppse_frame; select_ppse_frame] |}
    = sent {| script := [{| write_ok := false; read_ok := false; answer := [] |};
                         plain_record_reply];
              sent := [] |}
      ++ repeat (exchange_frame 0x40 select_ppse) n
    /\ (1 <= n <= 3)%nat
    /\ (true = false -> n = 3%nat).
Proof.
  apply (sendAPDU_3_attempts 0x40
           {| script := [{| write_ok := false; read_ok := false; answer := [] |};
                         plain_record_reply];
              sent := [] |}
           {| script := []; sent := [select_ppse_frame; select_ppse_frame] |}
           select_ppse [] (bytes [0x70; 0x03; 0x8F; 0x01; 0x05]) true).
  vm_compute. reflexivity.
Defined.

Lemma record_frames_S (command sfi start : Z) (n : nat) :
  record_frames command sfi start (S n)
  = exchange_frame command (read_record_apdu start sfi)
    :: record_frames command sfi (start + 1) n.
Proof.
  unfold record_frames. cbn [seq map]. rewrite Z.add_0_r. f_equal.
  rewrite <- seq_shift, map_map. apply map_ext. intros i.
  do 2 f_equal. lia.
Qed.

Lemma scripted_read_records_sent (command track2 track1 pan : Z) (fuel : nat) :
  forall (st st' : scripted) (sfi start end_ : Z) (response response' : list byte)
         (fl : flow),
    0 <= start -> end_ <= 254 ->
    read_records scripted scripted_write scripted_read command track2 track1 pan
      fuel st sfi start end_ response
    = Ok (st', response', fl) ->
    exists n,
      sent st' = sent st ++ record_frames command sfi start n
      /\ Z.of_nat n <= Z.max 0 (end_ - start + 1)
      /\ (fl = Continue -> Z.of_nat n = Z.max 0 (end_ - start + 1)).
Proof.
  induction fuel as [| fuel IH];
    intros st st' sfi start end_ response response' fl Hstart Hend H;
    [discriminate H |].
  cbn [read_records] in H.
  destruct (Z.leb_spec start end_) as [Hle | Hgt].
  2: { injection H as <- _ <-. exists 0%nat. cbn [record_frames seq map].
       rewrite app_nil_r. split; [reflexivity | split; lia]. }
  destruct (sendAPDU _ _ _ command st _ response) as [[[st1 ok] r1] | |] eqn:Es;
    cbn [bind] in H; try discriminate H.
  apply scripted_sendAPDU_sent in Es.
  change (bytes [0; 178] ++ [to_u8 start; to_u8 sfi; to_u8 0])
    with (read_record_apdu start sfi) in Es.
  assert (forall st0 resp0,
            sent st0 = sent st1 ->
            read_records scripted scripted_write scripted_read command track2 track1 pan
              fuel st0 sfi ((start + 1) mod 256) end_ resp0 = Ok (st', response', fl) ->
            exists n,
              sent st' = sent st ++ record_frames command sfi start n
              /\ Z.of_nat n <= Z.max 0 (end_ - start + 1)
              /\ (fl = Continue -> Z.of_nat n = Z.max 0 (end_ - start + 1))) as Hnext.
  { intros st0 resp0 Hst0 Hrec. rewrite Z.mod_small in Hrec by lia.
    apply IH in Hrec; [| lia | lia]. destruct Hrec as [n [Hs [Hn Hc]]].
    exists (S n). rewrite record_frames_S. split; [| split].
    - rewrite Hs, Hst0, Es, <- app_assoc. reflexivity.
    - lia.
    - intros F. specialize (Hc F). lia. }
  assert (forall resp0, Ok (st1, resp0, Return false) = Ok (st', response', fl) ->
            exists n,
              sent st' = sent st ++ record_frames command sfi start n
              /\ Z.of_nat n <= Z.max 0 (end_ - start + 1)
              /\ (fl = Continue -> Z.of_nat n = Z.max 0 (end_ - start + 1))) as Hfound.
  { intros resp0 E. injection E as <- _ <-. exists 1%nat. rewrite record_frames_S.
    cbn [record_frames seq map]. split; [exact Es | split; [lia | discriminate]]. }
  destruct ok; [| exact (Hnext _ _ eq_refl H)].
  repeat match type of H with
         | bind ?m _ = _ => destruct m as [? | |]; cbn [bind] in H; try discriminate H
         | (if ?c then _ else _) = _ => destruct c
         end;
    first [exact (Hfound _ H) | exact (Hnext _ _ eq_refl H)].
Qed.

(** X17: the record loop on the scripted transport, for a last record
    number below 255: the frames written are READ RECORD for the records
    [start], [start + 1], ... of the file, in this order and each once, none
    beyond [end]; when the loop falls through (no card number field in any
    answer) every record from [start] to [end] has been asked for. *)
Theorem read_records_frames (command track2 track1 pan : Z) (fuel : nat)
    (st st' : scripted) (sfi start end_ : Z) (response response' : list byte)
    (fl : flow) :
  0 <= start -> end_ <= 254 ->
  read_records scripted scripted_write scripted_read command track2 track1 pan
    fuel st sfi start end_ response
  = Ok (st', response', fl) ->
  exists n,
    sent st' = sent st ++ record_frames command sfi start n
    /\ Z.of_nat n <= Z.max 0 (end_ - start + 1)
    /\ (fl = Continue -> Z.of_nat n = Z.max 0 (end_ - start + 1)).
Proof. apply scripted_read_records_sent. Qed.

Lemma read_records_frames_witness :
  exists n,
    sent {| script := []; sent := [read_record_frame 1 0x14; read_record_frame 2 0x14] |}
    = sent {| script := [plain_record_reply; pan_record_reply]; sent := [] |}
      ++ record_frames 0x40 0x14 1 n
    /\ Z.of_nat n <= Z.max 0 (2 - 1 + 1)
    /\ (Return false = Continue -> Z.of_nat n = Z.max 0 (2 - 1 + 1)).
Proof.
  apply (read_records_frames 0x40 0x57 0x56 0x5A 3
           {| script := [plain_record_reply; pan_record_reply]; sent := [] |}
           {| script := []; sent := [read_record_frame 1 0x14; read_record_frame 2 0x14] |}
           0x14 1 2 [] (slice (answer pan_record_reply) 1 (size (answer pan_record_reply) - 2))
           (Return false)).
  - lia.
  - lia.
  - vm_compute. reflexivity.
Defined.

Lemma scripted_read_records_file (command track2 track1 pan : Z) (fuel : nat) :
  forall (st st' : scripted) (sfi start end_ : Z) (response response' : list byte)
         (fl : flow),
    read_records scripted scripted_write scripted_read command track2 track1 pan
      fuel st sfi start end_ response
    = Ok (st', response', fl) ->
    exists frames,
      sent st' = sent st ++ frames
      /\ Forall (fun f => exists record,
                   f = exchange_frame command (read_record_apdu record sfi)) frames.
Proof.
  induction fuel as [| fuel IH];
    intros st st' sfi start end_ response response' fl H; [discriminate H |].
  cbn [read_records] in H.
  destruct (start <=? end_).
  2: { injection H as <- _ _. exists []. rewrite app_nil_r. split; [reflexivity | constructor]. }
  destruct (sendAPDU _ _ _ command st _ response) as [[[st1 ok] r1] | |] eqn:Es;
    cbn [bind] in H; try discriminate H.
  apply scripted_sendAPDU_sent in Es.
  change (bytes [0; 178] ++ [to_u8 start; to_u8 sfi; to_u8 0])
    with (read_record_apdu start sfi) in Es.
  assert (forall st0 resp0,
            sent st0 = sent st1 ->
            read_records scripted scripted_write scripted_read command track2 track1 pan
              fuel st0 sfi ((start + 1) mod 256) end_ resp0 = Ok (st', response', fl) ->
            exists frames,
              sent st' = sent st ++ frames
              /\ Forall (fun f => exists record,
                           f = exchange_frame command (read_record_apdu record sfi))
                   frames) as Hnext.
  { intros st0 resp0 Hst0 Hrec. apply IH in Hrec. destruct Hrec as [frames [Hs Hf]].
    exists (exchange_frame command (read_record_apdu start sfi) :: frames). split.
    - rewrite Hs, Hst0, Es, <- app_assoc. reflexivity.
    - constructor; [exists start; reflexivity | exact Hf]. }
  assert (forall resp0, Ok (st1, resp0, Return false) = Ok (st', response', fl) ->
            exists frames,
              sent st' = sent st ++ frames
              /\ Forall (fun f => exists record,
                           f = exchange_frame command (read_record_apdu record sfi))
                   frames) as Hfound.
  { intros resp0 E. injection E as <- _ _.
    exists [exchange_frame command (read_record_apdu start sfi)].
    split; [exact Es | constructor; [exists start; reflexivity | constructor]]. }
  destruct ok; [| exact (Hnext _ _ eq_refl H)].
  repeat match type of H with
         | bind ?m _ = _ => destruct m as [? | |]; cbn [bind] in H; try discriminate H
         | (if ?c then _ else _) = _ => destruct c
         end;
    first [exact (Hfound _ H) | exact (Hnext _ _ eq_refl H)].
Qed.

Lemma scripted_scan_afl_files (command track2 track1 pan : Z) (afl : list byte) (fuel : nat) :
  size afl <= 255 ->
  forall (st st' : scripted) (j : Z) (response response' : list byte) (fl : flow),
    0 <= j ->
    scan_afl scripted scripted_write scripted_read command track2 track1 pan
      fuel st afl (4 * j) response
    = Ok (st', response', fl) ->
    exists frames,
      sent st' = sent st ++ frames
      /\ Forall (reads_inner_entry command afl) frames.
Proof.
  intros Hafl.
  induction fuel as [| fuel IH]; intros st st' j response response' fl Hj H;
    [discriminate H |].
  cbn [scan_afl] in H.
  destruct (Z.ltb_spec (4 * j) (size afl - 4)) as [Hin | Hout].
  2: { injection H as <- _ _. exists []. rewrite app_nil_r. split; [reflexivity | constructor]. }
  destruct (at_ afl (4 * j)) as [b | |] eqn:Eb; cbn [bind] in H; try discriminate H.
  rewrite (Z.mod_small (4 * j + 1)) in H by lia.
  destruct (at_ afl (4 * j + 1)) as [start | |]; cbn [bind] in H; try discriminate H.
  rewrite (Z.mod_small (4 * j + 1 + 1)) in H by lia.
  destruct (at_ afl (4 * j + 1 + 1)) as [end_ | |]; cbn [bind] in H; try discriminate H.
  rewrite (Z.mod_small (4 * j + 1 + 1 + 1)) in H by lia.
  destruct (at_ afl (4 * j + 1 + 1 + 1)) as [auth | |]; cbn [bind] in H;
    try discriminate H.
  rewrite (Z.mod_small (4 * j + 1 + 1 + 1 + 1)) in H by lia.
  destruct (read_records _ _ _ command track2 track1 pan fuel st _ start end_ response)
    as [[[st1 r1] fl1] | |] eqn:Er; cbn [bind] in H; try discriminate H.
  apply scripted_read_records_file in Er. destruct Er as [frames1 [Hs1 Hf1]].
  assert (Forall (reads_inner_entry command afl) frames1) as Hinner.
  { revert Hf1. apply Forall_impl. intros f [record ->].
    exists j, b, record. repeat split; [exact Hj | lia | exact Eb]. }
  destruct fl1 as [| ret].
  - replace (4 * j + 1 + 1 + 1 + 1) with (4 * (j + 1)) in H by lia.
    apply IH in H; [| lia]. destruct H as [frames2 [Hs2 Hf2]].
    exists (frames1 ++ frames2). split.
    + rewrite Hs2, Hs1, <- app_assoc. reflexivity.
    + apply Forall_app. split; assumption.
  - injection H as <- _ _. exists frames1. split; assumption.
Qed.

(** X18: the scan of an AFL of at most 255 bytes, on the scripted
    transport, writes nothing but READ RECORD frames, each for the file of
    an AFL entry that has another entry behind it, the file identifier being
    the first byte of the entry with the low three bits set to 0b100: the
    file of the last entry is read only if an earlier entry names it too. *)
Theorem scan_afl_files (command track2 track1 pan : Z) (fuel : nat)
    (st st' : scripted) (afl response response' : list byte) (fl : flow) :
  size afl <= 255 ->
  scan_afl scripted scripted_write scripted_read command track2 track1 pan
    fuel st afl 0 response
  = Ok (st', response', fl) ->
  exists frames,
    sent st' = sent st ++ frames
    /\ Forall (reads_inner_entry command afl) frames.
Proof.
  intros Hafl H.
  exact (scripted_scan_afl_files command track2 track1 pan afl fuel Hafl
           st st' 0 response response' fl ltac:(lia) H).
Qed.

Lemma scan_afl_files_witness :
  exists frames,
    sent {| script := [pan_record_reply]; sent := [read_record_frame 1 0x0C] |}
    = sent {| script := [plain_record_reply; pan_record_reply]; sent := [] |} ++ frames
    /\ Forall (reads_inner_entry 0x40
                 (bytes [0x08; 0x01; 0x01; 0x00; 0x10; 0x01; 0x02; 0x00])) frames.
Proof.
  apply (scan_afl_files 0x40 0x57 0x56 0x5A 4
           {| script := [plain_record_reply; pan_record_reply]; sent := [] |}
           {| script := [pan_record_reply]; sent := [read_record_frame 1 0x0C] |}
           (bytes [0x08; 0x01; 0x01; 0x00; 0x10; 0x01; 0x02; 0x00]) []
           (slice (answer plain_record_reply) 1 (size (answer plain_record_reply) - 2))
           Continue).
  - vm_compute. discriminate.
  - vm_compute. reflexivity.
Defined.

Lemma reads_inner_entry_is_read_record (command : Z) (afl frame : list byte) :
  reads_inner_entry command afl frame -> is_read_record command frame.
Proof. intros [j [b [record [_ [_ [_ ->]]]]]]. eexists _, _. reflexivity. Qed.

(** X19: the order of the protocol. Whatever the card answers, a read on
    the scripted transport that returns has written: SELECT PPSE once; then
    at most three times one SELECT AID command; then, if SELECT AID was
    sent, at most three times one GET PROCESSING OPTIONS command; then, if
    GPO was sent, READ RECORD commands only. *)
Theorem read_mifare_plus_bytes_command_order
    (command aid_tag pdol_tag command_tag track2 track1 pan : Z) (fuel : nat)
    (st st' : scripted) (start_page num_bytes : Z) (data data' : list byte) (ok : bool) :
  read_mifare_plus_bytes_ scripted scripted_write scripted_read command
    aid_tag pdol_tag command_tag track2 track1 pan fuel st start_page num_bytes data
  = Ok (st', ok, data') ->
  exists adf_name pdol_data n_aid n_gpo reads,
    sent st' = sent st
               ++ [exchange_frame command select_ppse]
               ++ repeat (exchange_frame command (select_aid adf_name)) n_aid
               ++ repeat (exchange_frame command
                            (get_processing_options command_tag pdol_data)) n_gpo
               ++ reads
    /\ (n_aid <= 3)%nat /\ (n_gpo <= 3)%nat
    /\ (n_aid = 0%nat -> n_gpo = 0%nat)
    /\ (n_gpo = 0%nat -> reads = [])
    /\ Forall (is_read_record command) reads.
Proof.
  unfold read_mifare_plus_bytes_. intros H.
  destruct (sendAPDU _ _ _ command st select_ppse []) as [[[st1 ok1] r1] | |] eqn:E1;
    cbn [bind] in H; try discriminate H.
  apply scripted_sendAPDU_sent in E1.
  assert (forall st0, sent st0 = sent st1 -> st' = st0 ->
            exists adf_name pdol_data n_aid n_gpo reads,
              sent st' = sent st
                         ++ [exchange_frame command select_ppse]
                         ++ repeat (exchange_frame command (select_aid adf_name)) n_aid
                         ++ repeat (exchange_frame command
                                      (get_processing_options command_tag pdol_data)) n_gpo
                         ++ reads
              /\ (n_aid <= 3)%nat /\ (n_gpo <= 3)%nat
              /\ (n_aid = 0%nat -> n_gpo = 0%nat)
              /\ (n_gpo = 0%nat -> reads = [])
              /\ Forall (is_read_record command) reads) as Hstop1.
  { intros st0 Hs ->. exists [], [], 0%nat, 0%nat, []. cbn [repeat app].
    rewrite Hs, E1. repeat split; try lia; constructor. }
  destruct ok1; cbn [negb] in H;
    [| injection H as <- _ _; exact (Hstop1 _ eq_refl eq_refl)].
  destruct (findTag r1 aid_tag) as [adf_name | |]; cbn [bind] in H; try discriminate H.
  destruct (is_empty adf_name);
    [injection H as <- _ _; exact (Hstop1 _ eq_refl eq_refl) |].
  destruct (sendAPDU_3 _ _ _ command st1 (select_aid adf_name) r1)
    as [[[st2 ok2] r2] | |] eqn:E2; cbn [bind] in H; try discriminate H.
  apply scripted_sendAPDU_3_sent in E2. destruct E2 as [n_aid [E2 [Hn_aid _]]].
  assert (forall st0, sent st0 = sent st2 -> st' = st0 ->
            exists adf_name pdol_data n_aid n_gpo reads,
              sent st' = sent st
                         ++ [exchange_frame command select_ppse]
                         ++ repeat (exchange_frame command (select_aid adf_name)) n_aid
                         ++ repeat (exchange_frame command
                                      (get_processing_options command_tag pdol_data)) n_gpo
                         ++ reads
              /\ (n_aid <= 3)%nat /\ (n_gpo <= 3)%nat
              /\ (n_aid = 0%nat -> n_gpo = 0%nat)
              /\ (n_gpo = 0%nat -> reads = [])
              /\ Forall (is_read_record command) reads) as Hstop2.
  { intros st0 Hs ->. exists adf_name, [], n_aid, 0%nat, []. cbn [repeat app].
    rewrite Hs, E2, E1, app_nil_r, <- app_assoc.
    repeat split; try lia; constructor. }
  destruct ok2; cbn [negb] in H;
    [| injection H as <- _ _; exact (Hstop2 _ eq_refl eq_refl)].
  destruct (findTag r2 pdol_tag) as [pdol | |]; cbn [bind] in H; try discriminate H.
  destruct (constructPdolData pdol) as [[pdol_data pdol'] | |]; cbn [bind] in H;
    try discriminate H.
  destruct (sendAPDU_3 _ _ _ command st2 (get_processing_options command_tag pdol_data) r2)
    as [[[st3 ok3] r3] | |] eqn:E3; cbn [bind] in H; try discriminate H.
  apply scripted_sendAPDU_3_sent in E3. destruct E3 as [n_gpo [E3 [Hn_gpo _]]].
  assert (forall st0 reads, sent st0 = sent st3 ++ reads ->
            Forall (is_read_record command) reads -> st' = st0 ->
            exists adf_name pdol_data n_aid n_gpo reads,
              sent st' = sent st
                         ++ [exchange_frame command select_ppse]
                         ++ repeat (exchange_frame command (select_aid adf_name)) n_aid
                         ++ repeat (exchange_frame command
                                      (get_processing_options command_tag pdol_data)) n_gpo
                         ++ reads
              /\ (n_aid <= 3)%nat /\ (n_gpo <= 3)%nat
              /\ (n_aid = 0%nat -> n_gpo = 0%nat)
              /\ (n_gpo = 0%nat -> reads = [])
              /\ Forall (is_read_record command) reads) as Hstop3.
  { intros st0 reads Hs Hreads ->. exists adf_name, pdol_data, n_aid, n_gpo, reads.
    rewrite Hs, E3, E2, E1, <- !app_assoc.
    repeat split; try lia; assumption. }
  destruct ok3; cbn [negb] in H;
    [| injection H as <- _ _;
       exact (Hstop3 st3 [] (eq_sym (app_nil_r _)) (Forall_nil _) eq_refl)].
  destruct (findTag r3 track2) as [t2 | |]; cbn [bind] in H; try discriminate H.
  destruct (size t2 >? 0).
  { destruct (parse_track2 _ t2); cbn [bind] in H; try discriminate H.
    injection H as <- _ _.
    exact (Hstop3 st3 [] (eq_sym (app_nil_r _)) (Forall_nil _) eq_refl). }
  destruct (findTag r3 148) as [afl | |] eqn:Eafl; cbn [bind] in H; try discriminate H.
  destruct (_ || _);
    [injection H as <- _ _;
     exact (Hstop3 st3 [] (eq_sym (app_nil_r _)) (Forall_nil _) eq_refl) |].
  destruct (scan_afl _ _ _ command track2 track1 pan fuel st3 afl 0 r3)
    as [[[st4 r4] fl] | |] eqn:E4; cbn [bind] in H; try discriminate H.
  change 0 with (4 * 0) in E4.
  apply (scripted_scan_afl_files _ _ _ _ _ _ (findTag_short_value _ _ _ Eafl)) in E4;
    [| lia].
  destruct E4 as [reads [E4 Hreads]].
  assert (st' = st4) as -> by (destruct fl; injection H as <- _ _; reflexivity).
  apply (Hstop3 st4 reads); [exact E4 | | reflexivity].
  revert Hreads. apply Forall_impl. intros f. apply reads_inner_entry_is_read_record.
Qed.

Lemma read_mifare_plus_bytes_command_order_witness :
  exists adf_name pdol_data n_aid n_gpo reads,
    sent {| script := [pan_record_reply; plain_record_reply];
            sent := [select_ppse_frame; select_aid_frame; gpo_frame;
                     read_record_frame 0x01 0x0C] |}
    = sent {| script := [ppse_reply; aid_reply; gpo_afl_reply;
                         plain_record_reply; pan_record_reply; plain_record_reply];
              sent := [] |}
      ++ [exchange_frame 0x40 select_ppse]
      ++ repeat (exchange_frame 0x40 (select_aid adf_name)) n_aid
      ++ repeat (exchange_frame 0x40 (get_processing_options 0x83 pdol_data)) n_gpo
      ++ reads
    /\ (n_aid <= 3)%nat /\ (n_gpo <= 3)%nat
    /\ (n_aid = 0%nat -> n_gpo = 0%nat)
    /\ (n_gpo = 0%nat -> reads = [])
    /\ Forall (is_read_record 0x40) reads.
Proof.
  apply (read_mifare_plus_bytes_command_order 0x40 0x4F 0x9F38 0x83 0x57 0x56 0x5A 8
           {| script := [ppse_reply; aid_reply; gpo_afl_reply;
                         plain_record_reply; pan_record_reply; plain_record_reply];
              sent := [] |}
           {| script := [pan_record_reply; plain_record_reply];
              sent := [select_ppse_frame; select_aid_frame; gpo_frame;
                       read_record_frame 0x01 0x0C] |}
           3 16 [] [] false).
  vm_compute. reflexivity.
Defined.

(** ** The tag built from a read *)

(** X20: the tag [read_mifare_plus_tag_] builds never carries data: for
    every transport and whatever the card answers, a call that returns
    yields the tag made from the UID and the type alone, because the read
    it relies on reports failure on every path. *)
Theorem read_mifare_plus_tag_without_data (T : Type)
    (write_command_ : T -> list byte -> T * bool)
    (read_response : T -> Z -> list byte -> T * bool * list byte)
    (command aid_tag pdol_tag command_tag track2 track1 pan : Z)
    (tag_type : String.string) (page_size read_size : Z)
    (fuel : nat) (st st' : T) (uid : list byte) (tag : NfcTag) :
  read_mifare_plus_tag_ T write_command_ read_response command aid_tag pdol_tag
    command_tag track2 track1 pan tag_type page_size read_size fuel st uid
  = Ok (st', tag) ->
  tag = NfcTag_uid_type uid tag_type.
Proof.
  unfold read_mifare_plus_tag_. intros H.
  destruct (read_mifare_plus_bytes_ _ _ _ _ _ _ _ _ _ _ _ _ _ _ _)
    as [[[st1 ok] data] | |] eqn:E; cbn [bind] in H; try discriminate H.
  apply read_mifare_plus_bytes_reports_failure in E. destruct E as [-> _].
  cbn [negb] in H. injection H as _ <-. reflexivity.
Qed.

Lemma read_mifare_plus_tag_without_data_witness :
  NfcTag_uid_type (bytes [0x04; 0xA1; 0xB2; 0xC3]) "NFC Forum Type 2"%string
  = NfcTag_uid_type (bytes [0x04; 0xA1; 0xB2; 0xC3]) "NFC Forum Type 2"%string.
Proof.
  apply (read_mifare_plus_tag_without_data scripted scripted_write scripted_read
           0x40 0x4F 0x9F38 0x83 0x57 0x56 0x5A "NFC Forum Type 2"%string 4 4 8
           {| script := [ppse_reply; aid_reply; gpo_track2_reply]; sent := [] |}
           {| script := []; sent := [select_ppse_frame; select_aid_frame; gpo_frame] |}
           (bytes [0x04; 0xA1; 0xB2; 0xC3])
           (NfcTag_uid_type (bytes [0x04; 0xA1; 0xB2; 0xC3]) "NFC Forum Type 2"%string)).
  vm_compute. reflexivity.
Defined.
